(** * Verification of the admin dashboard's page logic

    A shallow embedding of the TypeScript sources of the dashboard:

    - [src/pages/Inventory.tsx]: the site-stock-summary query (server
      aggregation with a client-side fallback scan), the item mutations
      and the item search filter;
    - the Sites page: the site search filter;
    - [src/App.tsx]: the authentication guard and the route table;
    - [src/pages/Auth.tsx]: the two handlers of the one-time-code flow;
    - [src/pages/Activities.tsx]: [formatDateTime].

    Asynchronous handlers are written in a state-and-exception monad over
    an explicit world (requests issued, notifications shown, cache, page
    state); the remote services are oracles passed as parameters.
    Definitions come first, the theorems follow. *)

From Stdlib Require Import List String Ascii ZArith Lia Bool Arith.
From Stdlib Require QArith Qminmax Lqa.
From Stdlib Require Import Sorting.Sorted Sorting.Permutation.
Import ListNotations.
Local Open Scope string_scope.
Local Open Scope list_scope.

(* ===================================================================== *)
(** * Part I: definitions *)
(* ===================================================================== *)

(** ** JavaScript values *)

(** [T | null] of the TypeScript types: [None] is [null]. *)
Definition Nullable (A : Type) : Type := option A.

(** The result of an optional chain [x?.f]: [None] is [undefined]. *)
Definition Optional (A : Type) : Type := option A.

(** [x?.f]: [undefined] when [x] is null, the field otherwise. *)
Definition chain {A B : Type} (x : Nullable A) (f : A -> B) : Optional B :=
  match x with
  | Some a => Some (f a)
  | None => None
  end.

(** [data || []]: a null array is replaced by the empty one (an array, even
    an empty one, is truthy). *)
Definition or_empty {A : Type} (data : Nullable (list A)) : list A :=
  match data with
  | Some rows => rows
  | None => []
  end.

(** JavaScript truthiness of a string: only the empty string is falsy. *)
Definition truthy (s : string) : bool :=
  match s with
  | EmptyString => false
  | String _ _ => true
  end.

(** ** A state-and-exception monad

    A computation runs in a world [S]; it returns a value or throws.  The
    world reached is kept in both cases, as effects performed before a
    JavaScript [throw] are not rolled back. *)

Inductive Result (E A : Type) : Type :=
| Ok (a : A)
| Throw (e : E).
Arguments Ok {E A} a.
Arguments Throw {E A} e.

Definition M (S E A : Type) : Type := S -> Result E A * S.

Definition ret {S E A : Type} (a : A) : M S E A :=
  fun s => (Ok a, s).

Definition bind {S E A B : Type} (c : M S E A) (k : A -> M S E B) : M S E B :=
  fun s =>
    match c s with
    | (Ok a, s') => k a s'
    | (Throw e, s') => (Throw e, s')
    end.

Definition throw {S E A : Type} (e : E) : M S E A :=
  fun s => (Throw e, s).

Definition gets {S E A : Type} (f : S -> A) : M S E A :=
  fun s => (Ok (f s), s).

Definition modify {S E : Type} (f : S -> S) : M S E unit :=
  fun s => (Ok tt, f s).

Declare Scope eff_scope.
Delimit Scope eff_scope with eff.
Notation "x <- c1 ;; c2" := (bind c1 (fun x => c2))
  (at level 61, c1 at next level, right associativity) : eff_scope.
Notation "c1 ;; c2" := (bind c1 (fun _ => c2))
  (at level 61, right associativity) : eff_scope.
Local Open Scope eff_scope.

(** Unfold the monad's operations and compute. *)
Ltac run_eff := unfold bind, ret, throw, gets, modify; cbn.

(** [array.forEach(f)] for an effectful callback. *)
Fixpoint forEach {S E A : Type} (l : list A) (f : A -> M S E unit) : M S E unit :=
  match l with
  | [] => ret tt
  | x :: l' => f x ;; forEach l' f
  end.

(** ** The JavaScript [Map] with string keys

    A [Map] iterates in insertion order, so it is an association list: [set]
    on a key already present replaces the value where it stands, [set] on a
    new key appends.  Keys are compared by SameValueZero, which on strings
    is equality of the strings. *)
Module JsMap.

Definition t (V : Type) : Type := list (string * V).

Definition empty {V : Type} : t V := [].

Fixpoint has {V : Type} (m : t V) (k : string) : bool :=
  match m with
  | [] => false
  | (k', _) :: m' => if String.eqb k' k then true else has m' k
  end.

Fixpoint set {V : Type} (m : t V) (k : string) (v : V) : t V :=
  match m with
  | [] => [(k, v)]
  | (k', v') :: m' =>
      if String.eqb k' k then (k', v) :: m' else (k', v') :: set m' k v
  end.

Definition keys {V : Type} (m : t V) : list string := map fst m.

Definition values {V : Type} (m : t V) : list V := map snd m.

End JsMap.

(** ** The heap of [Map] objects

    [new Map()] allocates a fresh object; a reference is its index in the
    heap.  Reading a reference that was never allocated gives the empty
    map, writing one does nothing: the code below only uses references it
    has allocated. *)
Module Heap.

Definition t (V : Type) : Type := list (JsMap.t V).

Definition ref : Type := nat.

Definition read {V : Type} (h : t V) (r : ref) : JsMap.t V :=
  nth r h JsMap.empty.

Fixpoint write {V : Type} (h : t V) (r : ref) (m : JsMap.t V) : t V :=
  match h, r with
  | [], _ => []
  | _ :: h', O => m :: h'
  | x :: h', S r' => x :: write h' r' m
  end.

Definition alloc {V : Type} (h : t V) : ref * t V :=
  (List.length h, h ++ [JsMap.empty]).

End Heap.

(** [new Map()], [map.has(k)], [map.set(k, v)] and [map.values()] on a
    heap of maps. *)
Definition new_Map {V E : Type} : M (Heap.t V) E Heap.ref :=
  fun h => let (r, h') := Heap.alloc h in (Ok r, h').

Definition Map_has {V E : Type} (r : Heap.ref) (k : string) : M (Heap.t V) E bool :=
  gets (fun h => JsMap.has (Heap.read h r) k).

Definition Map_set {V E : Type} (r : Heap.ref) (k : string) (v : V) : M (Heap.t V) E unit :=
  modify (fun h => Heap.write h r (JsMap.set (Heap.read h r) k v)).

Definition Map_values {V E : Type} (r : Heap.ref) : M (Heap.t V) E (list V) :=
  gets (fun h => JsMap.values (Heap.read h r)).

(** ** Strings: [String.prototype.includes]

    [s.includes(sub)] holds when [sub] occurs in [s] as a run of
    consecutive characters; the empty string occurs in every string. *)

Fixpoint startsWith (s sub : string) {struct sub} : bool :=
  match sub, s with
  | EmptyString, _ => true
  | String _ _, EmptyString => false
  | String c sub', String d s' => if Ascii.eqb c d then startsWith s' sub' else false
  end.

Fixpoint includes (s sub : string) : bool :=
  if startsWith s sub then true
  else
    match s with
    | EmptyString => false
    | String _ s' => includes s' sub
    end.

(** [sub] occurs in [s]. *)
Definition occurs_in (sub s : string) : Prop :=
  exists pre post : string, s = (pre ++ sub ++ post)%string.

(** A lower-casing that works character by character, as
    [toLowerCase] does on ASCII text: [charwise lower]. *)
Fixpoint charwise (lower : ascii -> ascii) (s : string) : string :=
  match s with
  | EmptyString => EmptyString
  | String c s' => String (lower c) (charwise lower s')
  end.

(** The lower-case form of an ASCII character: [A]-[Z] (65-90) move to
    [a]-[z], every other character stays. *)
Definition lowerAscii (c : ascii) : ascii :=
  let n := nat_of_ascii c in
  if ((65 <=? n)%nat && (n <=? 90)%nat)%bool then ascii_of_nat (n + 32) else c.

(** ** Notifications *)

(** The argument of [toast({ title, description, variant })]; [variant]
    is absent on the success notifications. *)
Record Toast : Type := {
  title : string;
  description : string;
  variant : Optional string
}.

(** The error object of a rejected store request. *)
Record PostgrestError : Type := {
  message : string
}.

(** What the store client resolves to: [{ data, error }]. *)
Record PostgrestResponse (A : Type) : Type := {
  data : Nullable A;
  error : Nullable PostgrestError
}.
Arguments data {A} _.
Arguments error {A} _.

(* --------------------------------------------------------------------- *)
(** ** The Inventory page ([src/pages/Inventory.tsx]) *)
(* --------------------------------------------------------------------- *)
Module Inventory.

(** The columns of the joined [inventory_items] record that the
    transaction queries select. *)
Module Joined.
Record t : Type := {
  id : string;
  name : string;
  category : Nullable string;
  unit : string
}.
End Joined.

(** A row of the fallback query: the columns [item_id], [new_stock],
    [created_at] and the joined item.  Stock quantities are only copied,
    never computed with, so their type is left open. *)
Record Transaction (number : Type) : Type := {
  item_id : string;
  new_stock : number;
  created_at : Nullable string;
  inventory_items : Nullable Joined.t
}.
Arguments item_id {number} _.
Arguments new_stock {number} _.
Arguments created_at {number} _.
Arguments inventory_items {number} _.

(** An entry of the stock summary. *)
Module StockSummary.
Record t (number : Type) : Type := {
  item_id : string;
  current_stock : number;
  item_name : Optional string;
  item_category : Optional (Nullable string);
  item_unit : Optional string;
  last_updated : Nullable string
}.
Arguments item_id {number} _.
Arguments current_stock {number} _.
Arguments item_name {number} _.
Arguments item_category {number} _.
Arguments item_unit {number} _.
Arguments last_updated {number} _.
End StockSummary.

(** The object literal stored for a transaction (lines 119-126). *)
Definition summary_of {number : Type} (transaction : Transaction number) : StockSummary.t number :=
  {| StockSummary.item_id := item_id transaction;
     StockSummary.current_stock := new_stock transaction;
     StockSummary.item_name := chain (inventory_items transaction) Joined.name;
     StockSummary.item_category := chain (inventory_items transaction) Joined.category;
     StockSummary.item_unit := chain (inventory_items transaction) Joined.unit;
     StockSummary.last_updated := created_at transaction |}.

(** Lines 115-130: group by [item_id] and keep the latest stock.

<<
    const stockMap = new Map();
    transactions?.forEach(transaction => {
      if (!stockMap.has(transaction.item_id)) {
        stockMap.set(transaction.item_id, { ... });
      }
    });
    return Array.from(stockMap.values());
>> *)
Definition stockMapScan {number E : Type} (transactions : Nullable (list (Transaction number)))
  : M (Heap.t (StockSummary.t number)) E (list (StockSummary.t number)) :=
  stockMap <- new_Map ;;
  match transactions with
  | Some rows =>
      forEach rows (fun transaction =>
        present <- Map_has stockMap (item_id transaction) ;;
        if negb present
        then Map_set stockMap (item_id transaction) (summary_of transaction)
        else ret tt)
  | None => ret tt
  end ;;
  Map_values stockMap.

(** *** The scan read as a function of the map

    The three definitions below restate the scan without the heap; the
    lemmas of Part II relate them to [stockMapScan]. *)

(** One turn of the [forEach] callback on the contents of [stockMap]. *)
Definition scan_step {number : Type} (m : JsMap.t (StockSummary.t number))
    (transaction : Transaction number) : JsMap.t (StockSummary.t number) :=
  if negb (JsMap.has m (item_id transaction))
  then JsMap.set m (item_id transaction) (summary_of transaction)
  else m.

(** The transactions that are the first of their item, the items of
    [seen] left out. *)
Fixpoint first_seen {number : Type} (seen : list string) (rows : list (Transaction number))
  : list (Transaction number) :=
  match rows with
  | [] => []
  | transaction :: rest =>
      if existsb (fun k => String.eqb k (item_id transaction)) seen
      then first_seen seen rest
      else transaction :: first_seen (seen ++ [item_id transaction]) rest
  end.

(** The key and value the callback stores for a transaction. *)
Definition entry {number : Type} (transaction : Transaction number)
  : string * StockSummary.t number :=
  (item_id transaction, summary_of transaction).

(** The first transaction of an item in input order. *)
Definition first_transaction {number : Type} (k : string) (rows : list (Transaction number))
  : option (Transaction number) :=
  find (fun transaction => String.eqb (item_id transaction) k) rows.

(** The position of the first occurrence of a key. *)
Fixpoint index_of (k : string) (l : list string) : option nat :=
  match l with
  | [] => None
  | x :: l' => if String.eqb x k then Some O else option_map S (index_of k l')
  end.

(** *** The site-stock-summary query (lines 86-135) *)

(** The requests the query sends to the store. *)
Inductive Request : Type :=
| Rpc (fn : string) (site_id_param : string)
| SelectTransactions (table : string) (eq_site_id : string) (order_desc : string).

(** The store as the query sees it: the answer to each of its two
    requests for a site. *)
Record Supabase (number : Type) : Type := {
  rpc_get_site_stock_summary : string -> PostgrestResponse (list (StockSummary.t number));
  select_transactions : string -> PostgrestResponse (list (Transaction number))
}.
Arguments rpc_get_site_stock_summary {number} _ _.
Arguments select_transactions {number} _ _.

(** The world of a run of the query: requests sent, oldest first, and the
    heap of [Map] objects. *)
Record QueryWorld (number : Type) : Type := {
  requests : list Request;
  heap : Heap.t (StockSummary.t number)
}.
Arguments requests {number} _.
Arguments heap {number} _.

Definition send {number : Type} (r : Request) : M (QueryWorld number) PostgrestError unit :=
  modify (fun w => {| requests := requests w ++ [r]; heap := heap w |}).

(** A computation on the heap, run inside the query's world. *)
Definition onHeap {number A : Type} (c : M (Heap.t (StockSummary.t number)) PostgrestError A)
  : M (QueryWorld number) PostgrestError A :=
  fun w => let (r, h) := c (heap w) in (r, {| requests := requests w; heap := h |}).

Definition siteStockSummary_queryFn {number : Type} (supabase : Supabase number)
    (selectedSite : string)
  : M (QueryWorld number) PostgrestError (list (StockSummary.t number)) :=
  if negb (truthy selectedSite) then ret []
  else
    send (Rpc "get_site_stock_summary" selectedSite) ;;
    let response := rpc_get_site_stock_summary supabase selectedSite in
    match error response with
    | Some _ =>
        send (SelectTransactions "inventory_transactions" selectedSite "created_at") ;;
        let fallback := select_transactions supabase selectedSite in
        match error fallback with
        | Some transError => throw transError
        | None => onHeap (stockMapScan (data fallback))
        end
    | None => ret (or_empty (data response))
    end.

(** *** The item search filter (lines 216-219) *)

(** A row of the table [inventory_items]
    ([integrations/supabase/types.ts], [Row]). *)
Module Item.
Record t : Type := {
  category : Nullable string;
  created_at : Nullable string;
  created_by : Nullable string;
  gujarati_category : Nullable string;
  gujarati_name : Nullable string;
  gujarati_unit : Nullable string;
  id : string;
  item_code : Nullable string;
  name : string;
  status : Nullable string;
  unit : string;
  updated_at : Nullable string
}.
End Item.

Section Search.

(** [String.prototype.toLowerCase], a built-in of the language. *)
Variable toLowerCase : string -> string.

(** [field?.toLowerCase().includes(searchTerm.toLowerCase())]: a null
    field gives [undefined], which is falsy. *)
Definition field_matches (field : Nullable string) (searchTerm : string) : bool :=
  match field with
  | Some text => includes (toLowerCase text) (toLowerCase searchTerm)
  | None => false
  end.

(** A text contains a term case-insensitively: the lower-cased term occurs
    in the lower-cased text. *)
Definition contains_ci (text term : string) : Prop :=
  occurs_in (toLowerCase term) (toLowerCase text).

(** [inventoryItems?.filter(item => ... || ...) || []]; [inventoryItems]
    is undefined until the items query has answered. *)
Definition filteredItems (inventoryItems : Optional (list Item.t)) (searchTerm : string)
  : list Item.t :=
  match inventoryItems with
  | Some items =>
      filter (fun item =>
                field_matches (Some (Item.name item)) searchTerm
                || field_matches (Item.category item) searchTerm) items
  | None => []
  end.

End Search.

(** *** The item mutations (lines 137-214) *)

(** The values of the item form ([useForm], lines 26-33). *)
Module Form.
Record t : Type := {
  name : string;
  category : string;
  unit : string;
  status : string
}.
Definition defaultValues : t :=
  {| name := ""; category := ""; unit := ""; status := "active" |}.
End Form.

(** The writes the mutations send to the store. *)
Inductive Write : Type :=
| Insert (table : string) (itemData : Form.t)
| Update (table : string) (itemData : Form.t) (eq_id : string)
| Delete (table : string) (eq_id : string).

(** A query of the cache of the data-fetching library: its key, its data
    and whether it was invalidated. *)
Record Query (Data : Type) : Type := {
  queryKey : list string;
  state_data : Data;
  isInvalidated : bool
}.
Arguments queryKey {Data} _.
Arguments state_data {Data} _.
Arguments isInvalidated {Data} _.

(** A query key matches a filter key that is a prefix of it. *)
Fixpoint key_matches (filterKey key : list string) : bool :=
  match filterKey, key with
  | [], _ => true
  | _ :: _, [] => false
  | a :: filterKey', b :: key' => if String.eqb a b then key_matches filterKey' key' else false
  end.

(** [queryClient.invalidateQueries({ queryKey })]: the matching queries are
    marked invalidated; their data stays until a refetch answers. *)
Definition invalidateQueries {Data : Type} (filterKey : list string) (cache : list (Query Data))
  : list (Query Data) :=
  map (fun q =>
         if key_matches filterKey (queryKey q)
         then {| queryKey := queryKey q; state_data := state_data q; isInvalidated := true |}
         else q) cache.

(** The state the mutations act on: the query cache, the notifications
    shown and the writes sent (oldest first), and the page's own state:
    the two dialog flags, the item being edited, and the form with its
    current values and the default values a reset returns to (initially
    [Form.defaultValues]; [form.reset(values)] replaces them). *)
Record Page (Data : Type) : Type := {
  cache : list (Query Data);
  toasts : list Toast;
  sent : list Write;
  isAddDialogOpen : bool;
  isEditDialogOpen : bool;
  editingItem : Nullable Item.t;
  form : Form.t;
  formDefaults : Form.t
}.
Arguments cache {Data} _.
Arguments toasts {Data} _.
Arguments sent {Data} _.
Arguments isAddDialogOpen {Data} _.
Arguments isEditDialogOpen {Data} _.
Arguments editingItem {Data} _.
Arguments form {Data} _.
Arguments formDefaults {Data} _.

(** The options given to [useMutation]. *)
Record MutationOptions (Data V : Type) : Type := {
  mutationFn : V -> M (Page Data) PostgrestError unit;
  onSuccess : M (Page Data) PostgrestError unit;
  onError : PostgrestError -> M (Page Data) PostgrestError unit;
  retry : Optional nat
}.
Arguments mutationFn {Data V} _ _ _.
Arguments onSuccess {Data V} _ _.
Arguments onError {Data V} _ _ _.
Arguments retry {Data V} _.

(** The library runs [mutationFn] again after a failure as long as the
    failure count is below [retry]. *)
Fixpoint attempt {Data V : Type} (retries : nat) (fn : V -> M (Page Data) PostgrestError unit)
    (variables : V) : M (Page Data) PostgrestError unit :=
  fun w =>
    match fn variables w with
    | (Ok r, w') => (Ok r, w')
    | (Throw e, w') =>
        match retries with
        | O => (Throw e, w')
        | S n => attempt n fn variables w'
        end
    end.

(** [mutation.mutate(variables)]: run [mutationFn] (with [retry] absent a
    mutation is tried once), then [onSuccess] or [onError]; a failure is
    handed to [onError] and not thrown to the caller. *)
Definition mutate {Data V : Type} (options : MutationOptions Data V) (variables : V)
  : M (Page Data) PostgrestError unit :=
  fun w =>
    match attempt (match retry options with Some n => n | None => O end)
                  (mutationFn options) variables w with
    | (Ok _, w') => onSuccess options w'
    | (Throw e, w') => (Ok tt, snd (onError options e w'))
    end.

Section Mutations.
Context {Data : Type}.

(** The store's answer to a write: an error or none. *)
Variable store : Write -> Nullable PostgrestError.

Definition toast (t : Toast) : M (Page Data) PostgrestError unit :=
  modify (fun w =>
    {| cache := cache w; toasts := toasts w ++ [t]; sent := sent w;
       isAddDialogOpen := isAddDialogOpen w; isEditDialogOpen := isEditDialogOpen w;
       editingItem := editingItem w; form := form w;
       formDefaults := formDefaults w |}).

(** [const { error } = await supabase.from(...)...; if (error) throw error;] *)
Definition write (request : Write) : M (Page Data) PostgrestError unit :=
  modify (fun w =>
    {| cache := cache w; toasts := toasts w; sent := sent w ++ [request];
       isAddDialogOpen := isAddDialogOpen w; isEditDialogOpen := isEditDialogOpen w;
       editingItem := editingItem w; form := form w;
       formDefaults := formDefaults w |}) ;;
  match store request with
  | Some error => throw error
  | None => ret tt
  end.

Definition invalidate (filterKey : list string) : M (Page Data) PostgrestError unit :=
  modify (fun w =>
    {| cache := invalidateQueries filterKey (cache w); toasts := toasts w; sent := sent w;
       isAddDialogOpen := isAddDialogOpen w; isEditDialogOpen := isEditDialogOpen w;
       editingItem := editingItem w; form := form w;
       formDefaults := formDefaults w |}).

Definition setIsAddDialogOpen (b : bool) : M (Page Data) PostgrestError unit :=
  modify (fun w =>
    {| cache := cache w; toasts := toasts w; sent := sent w;
       isAddDialogOpen := b; isEditDialogOpen := isEditDialogOpen w;
       editingItem := editingItem w; form := form w;
       formDefaults := formDefaults w |}).

Definition setIsEditDialogOpen (b : bool) : M (Page Data) PostgrestError unit :=
  modify (fun w =>
    {| cache := cache w; toasts := toasts w; sent := sent w;
       isAddDialogOpen := isAddDialogOpen w; isEditDialogOpen := b;
       editingItem := editingItem w; form := form w;
       formDefaults := formDefaults w |}).

Definition setEditingItem (item : Nullable Item.t) : M (Page Data) PostgrestError unit :=
  modify (fun w =>
    {| cache := cache w; toasts := toasts w; sent := sent w;
       isAddDialogOpen := isAddDialogOpen w; isEditDialogOpen := isEditDialogOpen w;
       editingItem := item; form := form w;
       formDefaults := formDefaults w |}).

(** [form.reset()]: back to the default values. *)
Definition form_reset : M (Page Data) PostgrestError unit :=
  modify (fun w =>
    {| cache := cache w; toasts := toasts w; sent := sent w;
       isAddDialogOpen := isAddDialogOpen w; isEditDialogOpen := isEditDialogOpen w;
       editingItem := editingItem w; form := formDefaults w;
       formDefaults := formDefaults w |}).

Definition success (text : string) : Toast :=
  {| title := "Success"; description := text; variant := None |}.

Definition failure (text : string) : Toast :=
  {| title := "Error"; description := text; variant := Some "destructive" |}.

Definition createItemMutation : MutationOptions Data Form.t :=
  {| mutationFn := fun itemData => write (Insert "inventory_items" itemData);
     onSuccess :=
       invalidate ["inventory-items"] ;;
       setIsAddDialogOpen false ;;
       form_reset ;;
       toast (success "Inventory item created successfully");
     onError := fun _ => toast (failure "Failed to create inventory item");
     retry := None |}.

(** The variables are [{ id, ...itemData }]. *)
Definition updateItemMutation : MutationOptions Data (string * Form.t) :=
  {| mutationFn := fun '(id, itemData) => write (Update "inventory_items" itemData id);
     onSuccess :=
       invalidate ["inventory-items"] ;;
       setIsEditDialogOpen false ;;
       setEditingItem None ;;
       form_reset ;;
       toast (success "Inventory item updated successfully");
     onError := fun _ => toast (failure "Failed to update inventory item");
     retry := None |}.

Definition deleteItemMutation : MutationOptions Data string :=
  {| mutationFn := fun itemId => write (Delete "inventory_items" itemId);
     onSuccess :=
       invalidate ["inventory-items"] ;;
       toast (success "Inventory item deleted successfully");
     onError := fun _ => toast (failure "Failed to delete inventory item");
     retry := None |}.

End Mutations.

(** *** The transaction log behind the query *)

(** A row of the table [inventory_transactions]
    ([integrations/supabase/types.ts], [Row]). *)
Module Row.
Record t (number : Type) : Type := {
  created_at : Nullable string;
  created_by : Nullable string;
  id : string;
  image_key : Nullable string;
  image_url : Nullable string;
  item_id : string;
  new_stock : number;
  notes : Nullable string;
  previous_stock : number;
  quantity : number;
  site_id : Nullable string;
  transaction_type : string
}.
Arguments created_at {number} _.
Arguments created_by {number} _.
Arguments id {number} _.
Arguments image_key {number} _.
Arguments image_url {number} _.
Arguments item_id {number} _.
Arguments new_stock {number} _.
Arguments notes {number} _.
Arguments previous_stock {number} _.
Arguments quantity {number} _.
Arguments site_id {number} _.
Arguments transaction_type {number} _.
End Row.

(** [.eq('site_id', selectedSite)] *)
Definition at_site {number : Type} (site : string) (r : Row.t number) : bool :=
  match Row.site_id r with
  | Some s => String.eqb s site
  | None => false
  end.

(** The columns the fallback query selects from a row, the joined item
    looked up by the row's [item_id]. *)
Definition selected {number : Type} (items : list Joined.t) (r : Row.t number)
  : Transaction number :=
  {| item_id := Row.item_id r;
     new_stock := Row.new_stock r;
     created_at := Row.created_at r;
     inventory_items := find (fun i => String.eqb (Joined.id i) (Row.item_id r)) items |}.

Section Log.
Context {number : Type}.

(** The store's ordering key of a [created_at] value: a later timestamp
    has a larger key. *)
Variable instant : Nullable string -> Z.

(** [.order('created_at', { ascending: false })]: every row is at least as
    recent as the rows after it. *)
Definition newest_first (rows : list (Row.t number)) : Prop :=
  StronglySorted (fun r1 r2 => (instant (Row.created_at r2) <= instant (Row.created_at r1))%Z) rows.

(** What the store answers to the fallback query
    [from('inventory_transactions').select(...).eq('site_id', site)
     .order('created_at', { ascending: false })] over a log: the rows of
    the site, newest first, reduced to the selected columns. *)
Definition answers_fallback_query (log : list (Row.t number)) (items : list Joined.t)
    (site : string) (rows : list (Transaction number)) : Prop :=
  exists sorted : list (Row.t number),
    Permutation sorted (filter (at_site site) log) /\
    newest_first sorted /\
    rows = map (selected items) sorted.

(** A row of the log is a most recent transaction of its item at a site:
    no transaction of the item at the site has a later timestamp. *)
Definition most_recent (log : list (Row.t number)) (site : string) (r : Row.t number) : Prop :=
  In r log /\ at_site site r = true /\
  forall r', In r' log -> at_site site r' = true -> Row.item_id r' = Row.item_id r ->
    (instant (Row.created_at r') <= instant (Row.created_at r))%Z.

(** Modelled from the spec: the stock snapshot of an item taken from one
    transaction of the log.  The specification lists the fields of a
    summary entry as [item_id], [item_name], [item_category], [item_unit],
    [current_stock] and [last_updated]: the stock is the [new_stock] of the
    transaction, [last_updated] its [created_at], and name, category and
    unit are those of the item the transaction refers to, undefined when
    the table of items has no such item. *)
Definition snapshot_of (items : list Joined.t) (r : Row.t number)
    (e : StockSummary.t number) : Prop :=
  StockSummary.item_id e = Row.item_id r /\
  StockSummary.current_stock e = Row.new_stock r /\
  StockSummary.last_updated e = Row.created_at r /\
  match find (fun i => String.eqb (Joined.id i) (Row.item_id r)) items with
  | Some joined =>
      StockSummary.item_name e = Some (Joined.name joined) /\
      StockSummary.item_category e = Some (Joined.category joined) /\
      StockSummary.item_unit e = Some (Joined.unit joined)
  | None =>
      StockSummary.item_name e = None /\
      StockSummary.item_category e = None /\
      StockSummary.item_unit e = None
  end.

(** Modelled from the spec: the server-side procedure
    [get_site_stock_summary], whose code is not part of the repository.
    The specification asks for one entry per item observed at the site,
    the entry being the snapshot of the item's most recent transaction at
    the site (by [created_at]); which of several transactions with the
    same latest timestamp is taken is left open. *)
Definition is_site_stock_summary (log : list (Row.t number)) (items : list Joined.t)
    (site : string) (summary : list (StockSummary.t number)) : Prop :=
  NoDup (map StockSummary.item_id summary) /\
  (forall k, In k (map StockSummary.item_id summary) <->
             exists r, In r log /\ at_site site r = true /\ Row.item_id r = k) /\
  (forall e, In e summary ->
     exists r, most_recent log site r /\ snapshot_of items r e).

(** Transactions of one item at one site with the same timestamp record
    the same stock: the case in which the specification determines the
    stock levels of the summary. *)
Definition ties_agree (log : list (Row.t number)) (site : string) : Prop :=
  forall r r', In r log -> In r' log -> at_site site r = true -> at_site site r' = true ->
    Row.item_id r = Row.item_id r' ->
    instant (Row.created_at r) = instant (Row.created_at r') ->
    Row.new_stock r = Row.new_stock r'.

(** The store writes one point in time in one way: rows of the log with
    the same ordering key carry the same [created_at] value. *)
Definition timestamps_canonical (log : list (Row.t number)) : Prop :=
  forall r r', In r log -> In r' log ->
    instant (Row.created_at r) = instant (Row.created_at r') ->
    Row.created_at r = Row.created_at r'.

End Log.

(** *** The page handlers (lines 221-257) *)

(** [x || d] for a nullable string: the default replaces null and the
    empty string. *)
Definition or_default (x : Nullable string) (d : string) : string :=
  match x with
  | Some text => if truthy text then text else d
  | None => d
  end.

Section Handlers.
Context {Data : Type}.
Variable store : Write -> Nullable PostgrestError.

(** [window.confirm(message)]: the user's answer. *)
Variable confirm : string -> bool.

(** [form.reset(values)]: the form takes the values, which also become
    the values a later [form.reset()] returns to. *)
Definition form_reset_to (values : Form.t) : M (Page Data) PostgrestError unit :=
  modify (fun w =>
    {| cache := cache w; toasts := toasts w; sent := sent w;
       isAddDialogOpen := isAddDialogOpen w; isEditDialogOpen := isEditDialogOpen w;
       editingItem := editingItem w; form := values;
       formDefaults := values |}).

(** The user typing into the fields of the form. *)
Definition form_input (values : Form.t) : M (Page Data) PostgrestError unit :=
  modify (fun w =>
    {| cache := cache w; toasts := toasts w; sent := sent w;
       isAddDialogOpen := isAddDialogOpen w; isEditDialogOpen := isEditDialogOpen w;
       editingItem := editingItem w; form := values;
       formDefaults := formDefaults w |}).

Definition handleEdit (item : Item.t) : M (Page Data) PostgrestError unit :=
  setEditingItem (Some item) ;;
  form_reset_to
    {| Form.name := or_default (Some (Item.name item)) "";
       Form.category := or_default (Item.category item) "";
       Form.unit := or_default (Some (Item.unit item)) "";
       Form.status := or_default (Item.status item) "active" |} ;;
  setIsEditDialogOpen true.

Definition handleAdd : M (Page Data) PostgrestError unit :=
  form_reset_to
    {| Form.name := ""; Form.category := ""; Form.unit := ""; Form.status := "active" |} ;;
  setIsAddDialogOpen true.

Definition onSubmit (data : Form.t) : M (Page Data) PostgrestError unit :=
  editing <- gets editingItem ;;
  match editing with
  | Some item => mutate (updateItemMutation store) (Item.id item, data)
  | None => mutate (createItemMutation store) data
  end.

(** [form.handleSubmit(onSubmit)]: the form has no validation rules, so a
    submit hands the current values to [onSubmit]. *)
Definition handleSubmit : M (Page Data) PostgrestError unit :=
  data <- gets form ;;
  onSubmit data.

Definition handleDelete (itemId : string) : M (Page Data) PostgrestError unit :=
  if confirm "Are you sure you want to delete this inventory item?"
  then mutate (deleteItemMutation store) itemId
  else ret tt.

(** What the user can do on the items tab, as the elements of the page
    wire it: the Add button, the Edit and Delete buttons of a row, typing
    into the open form, its Cancel buttons and its submit. *)
Inductive Action : Type :=
| ClickAdd
| ClickEdit (item : Item.t)
| ClickDelete (item : Item.t)
| TypeInForm (values : Form.t)
| CancelAdd
| CancelEdit
| SubmitForm.

Definition act (a : Action) : M (Page Data) PostgrestError unit :=
  match a with
  | ClickAdd => handleAdd
  | ClickEdit item => handleEdit item
  | ClickDelete item => handleDelete (Item.id item)
  | TypeInForm values => form_input values
  | CancelAdd => setIsAddDialogOpen false
  | CancelEdit => setIsEditDialogOpen false
  | SubmitForm => handleSubmit
  end.

(** A sequence of actions, one after the other. *)
Definition perform (actions : list Action) : M (Page Data) PostgrestError unit :=
  forEach actions act.

End Handlers.

(** Unfold the handlers down to the monad and compute. *)
Ltac run_page :=
  unfold perform, act, handleEdit, handleAdd, handleSubmit, onSubmit, handleDelete,
    form_reset_to, form_input, setEditingItem, setIsEditDialogOpen, setIsAddDialogOpen;
  cbn [forEach];
  unfold mutate, attempt; cbn -[invalidateQueries or_default];
  unfold write, bind, ret, gets, modify; cbn -[invalidateQueries or_default].

End Inventory.

(* --------------------------------------------------------------------- *)
(** ** The Sites page *)
(* --------------------------------------------------------------------- *)
Module Sites.

(** The joined manager of a site ([manager:manager_id (name, phone)]). *)
Module Manager.
Record t : Type := {
  name : string;
  phone : Nullable string
}.
End Manager.

(** A row of the sites query: the columns of the table [sites]
    ([integrations/supabase/types.ts], [Row]; the JSON column [details]
    kept as text) and the joined manager. *)
Module Site.
Record t : Type := {
  created_at : Nullable string;
  details : Nullable string;
  id : string;
  image_key : Nullable string;
  image_url : Nullable string;
  location : Nullable string;
  name : string;
  status : Nullable string;
  updated_at : Nullable string;
  manager : Nullable Manager.t
}.
End Site.

Section Search.
Variable toLowerCase : string -> string.

(** [sites?.filter(site => ... || ...) || []] *)
Definition filteredSites (sites : Optional (list Site.t)) (searchTerm : string) : list Site.t :=
  match sites with
  | Some rows =>
      filter (fun site =>
                Inventory.field_matches toLowerCase (Some (Site.name site)) searchTerm
                || Inventory.field_matches toLowerCase (Site.location site) searchTerm) rows
  | None => []
  end.

End Search.
End Sites.

(* --------------------------------------------------------------------- *)
(** ** The application shell ([src/App.tsx]) *)
(* --------------------------------------------------------------------- *)
Module App.

(** The page components the routes render. *)
Inductive Page : Type :=
| Dashboard | Users | Sites | Activities | MaterialRequests
| Bookings | MessageLogs | Sessions | EmployeeOTPs | NotFound.

(** What [ProtectedApp] returns: the loading placeholder, the sign-in
    view, or the shell (sidebar and header) around what [Routes] renders,
    nothing when no route matches. *)
Inductive View : Type :=
| LoadingView
| AuthView
| Shell (content : option Page).

(** The value of [useAuth()] that [ProtectedApp] reads. *)
Record AuthContext (User : Type) : Type := {
  user : Nullable User;
  loading : bool
}.
Arguments user {User} _.
Arguments loading {User} _.

(** The children of [<Routes>], in source order. *)
Definition routes : list (string * Page) :=
  [ ("/", Dashboard);
    ("/users", Users);
    ("/sites", Sites);
    ("/activities", Activities);
    ("/material-requests", MaterialRequests);
    ("/bookings", Bookings);
    ("/message-logs", MessageLogs);
    ("/sessions", Sessions);
    ("/employee-otps", EmployeeOTPs);
    ("*", NotFound) ].

Section Router.

(** The router library's test of a pathname against a route pattern. *)
Variable matchPath : string -> string -> bool.

(** [<Routes>] renders the element of the first branch that matches.  The
    library tries the branches by rank, the splat route last; the table
    above already lists it last. *)
Definition Routes (table : list (string * Page)) (pathname : string) : option Page :=
  match find (fun route => matchPath (fst route) pathname) table with
  | Some route => Some (snd route)
  | None => None
  end.

Definition ProtectedApp {User : Type} (auth : AuthContext User) (pathname : string) : View :=
  if loading auth then LoadingView
  else
    match user auth with
    | None => AuthView
    | Some _ => Shell (Routes routes pathname)
    end.

End Router.

(** *** The router library's matching

    [<Routes>] is the component of react-router (version 6), which is not
    part of the sources.  The definitions below follow what the library
    does with a table like the one above, whose patterns are static (no
    parameters) but for the splat.  A pathname is the [pathname] of the
    browser's location: ASCII text in which any other character is
    written as a percent escape. *)
Module ReactRouter.

(** The value of a hexadecimal digit. *)
Definition hexValue (c : ascii) : option nat :=
  let n := nat_of_ascii c in
  if ((48 <=? n)%nat && (n <=? 57)%nat)%bool then Some (n - 48)
  else if ((65 <=? n)%nat && (n <=? 70)%nat)%bool then Some (n - 55)
  else if ((97 <=? n)%nat && (n <=? 102)%nat)%bool then Some (n - 87)
  else None.

(** The work of [decodePath],

<<
    value.split("/").map(v => decodeURIComponent(v).replace(/\//g, "%2F")).join("/")
>>

    in one pass: the slashes of the pathname stay, an escape [%XX] of an
    ASCII character becomes that character, and the escape of a slash is
    given back as [%2F].  The result is [None] when [decodeURIComponent]
    throws (a percent sign not followed by two hexadecimal digits) and
    when an escape stands for a byte from 128 on, part of a character
    outside ASCII. *)
Fixpoint decodeEscapes (pathname : string) : option string :=
  match pathname with
  | EmptyString => Some EmptyString
  | String c rest =>
      if Ascii.eqb c "%" then
        match rest with
        | String high (String low rest') =>
            match hexValue high, hexValue low with
            | Some h, Some l =>
                let code := 16 * h + l in
                if (code <? 128)%nat then
                  match decodeEscapes rest' with
                  | Some text =>
                      Some (if (code =? 47)%nat then ("%2F" ++ text)%string
                            else String (ascii_of_nat code) text)
                  | None => None
                  end
                else None
            | _, _ => None
            end
        | _ => None
        end
      else
        match decodeEscapes rest with
        | Some text => Some (String c text)
        | None => None
        end
  end.

(** [decodePath]: the decoded pathname, and the pathname as it stands
    when decoding throws.  A pathname with an escape outside ASCII is
    taken as it stands as well; the text the library compares in its place
    has a character outside ASCII, and like a text with a percent sign it
    matches none of the static patterns of the table. *)
Definition decodePath (pathname : string) : string :=
  match decodeEscapes pathname with
  | Some text => text
  | None => pathname
  end.

(** The text consists of slashes: [\/*$]. *)
Fixpoint onlySlashes (text : string) : bool :=
  match text with
  | EmptyString => true
  | String c rest => (Ascii.eqb c "/" && onlySlashes rest)%bool
  end.

(** The pattern without its trailing slashes. *)
Fixpoint dropTrailingSlashes (pattern : string) : string :=
  match pattern with
  | EmptyString => EmptyString
  | String c rest =>
      let rest' := dropTrailingSlashes rest in
      if (Ascii.eqb c "/" && String.eqb rest' EmptyString)%bool then EmptyString
      else String c rest'
  end.

(** The pattern without its leading slashes. *)
Fixpoint dropLeadingSlashes (pattern : string) : string :=
  match pattern with
  | EmptyString => EmptyString
  | String c rest => if Ascii.eqb c "/" then dropLeadingSlashes rest else pattern
  end.

(** The text that [compilePath] turns into a regular expression: trailing
    slashes are ignored and there is one leading slash. *)
Definition compiled (pattern : string) : string :=
  String "/" (dropLeadingSlashes (dropTrailingSlashes pattern)).

(** The regular expression of a static pattern, [^pattern\/*$] with the
    flag [i] ([caseSensitive] is not set on any route): the text is the
    pattern, letter case apart, followed by any number of slashes. *)
Fixpoint matchStatic (pattern text : string) : bool :=
  match pattern with
  | EmptyString => onlySlashes text
  | String p pattern' =>
      match text with
      | EmptyString => false
      | String c text' =>
          (Ascii.eqb (lowerAscii p) (lowerAscii c) && matchStatic pattern' text')%bool
      end
  end.

(** A line feed or carriage return, which the dot of a regular expression
    does not match. *)
Fixpoint hasLineTerminator (text : string) : bool :=
  match text with
  | EmptyString => false
  | String c rest =>
      (Nat.eqb (nat_of_ascii c) 10 || Nat.eqb (nat_of_ascii c) 13
       || hasLineTerminator rest)%bool
  end.

(** The regular expression of the splat pattern: a slash, then any
    characters the dot matches, to the end of the text. *)
Definition matchSplat (text : string) : bool :=
  match text with
  | EmptyString => false
  | String c rest => (Ascii.eqb c "/" && negb (hasLineTerminator rest))%bool
  end.

(** [matchPath] on a pattern of the table and a decoded pathname. *)
Definition matchPath (pattern text : string) : bool :=
  if String.eqb pattern "*" then matchSplat text
  else matchStatic (compiled pattern) text.

(** The test [matchRoutes] makes for one route: the pathname, [/] when it
    is empty, is decoded and matched against the route's pattern. *)
Definition matchRoute (pattern pathname : string) : bool :=
  matchPath pattern (decodePath (if String.eqb pathname EmptyString then "/" else pathname)).

End ReactRouter.
End App.

(* --------------------------------------------------------------------- *)
(** ** The sign-in page ([src/pages/Auth.tsx]) *)
(* --------------------------------------------------------------------- *)
Module Auth.

Inductive Step : Type := EmailStep | OtpStep.

(** The component state: [email], [otp], [step], [loading]. *)
Record State : Type := {
  email : string;
  otp : string;
  step : Step;
  loading : bool
}.

(** The error object of the authentication service. *)
Record AuthError : Type := {
  message : string
}.

(** The two calls of the hook [useAuth] the page uses: each sends one
    request to the authentication service and resolves to [{ error }]. *)
Record UseAuth : Type := {
  signInWithOtp : string -> Nullable AuthError;
  verifyOtp : string -> string -> Nullable AuthError
}.

(** What the handlers do to the outside, in order. *)
Inductive Effect : Type :=
| PreventDefault
| ShowToast (t : Toast)
| RequestCode (email : string)
| VerifyCode (email otp : string)
| Navigate (path : string).

(** The component state, the signed-in user of the session (null when
    unauthenticated) and the effects so far, oldest first. *)
Record World : Type := {
  page : State;
  session : Nullable string;
  effects : list Effect
}.

Definition effect (e : Effect) : M World AuthError unit :=
  modify (fun w =>
    {| page := page w; session := session w; effects := effects w ++ [e] |}).

Definition setLoading (b : bool) : M World AuthError unit :=
  modify (fun w =>
    {| page := {| email := email (page w); otp := otp (page w);
                  step := step (page w); loading := b |};
       session := session w; effects := effects w |}).

Definition setStep (s : Step) : M World AuthError unit :=
  modify (fun w =>
    {| page := {| email := email (page w); otp := otp (page w);
                  step := s; loading := loading (page w) |};
       session := session w; effects := effects w |}).

(** [setOtp(e.target.value)], the change handler of the code field. *)
Definition setOtp (code : string) : M World AuthError unit :=
  modify (fun w =>
    {| page := {| email := email (page w); otp := code;
                  step := step (page w); loading := loading (page w) |};
       session := session w; effects := effects w |}).

(** [await signInWithOtp(email)]: one request for a code. *)
Definition await_signInWithOtp (auth : UseAuth) (address : string)
  : M World AuthError (Nullable AuthError) :=
  effect (RequestCode address) ;;
  ret (signInWithOtp auth address).

(** Modelled from the spec: the hook [useAuth] is not among the sources.
    The specification describes verification as a call returning success or
    an error message; the session is the service's, and a verification
    that succeeds signs the address in, while one that fails leaves the
    session as it is. *)
Definition await_verifyOtp (auth : UseAuth) (address code : string)
  : M World AuthError (Nullable AuthError) :=
  effect (VerifyCode address code) ;;
  match verifyOtp auth address code with
  | Some error => ret (Some error)
  | None =>
      modify (fun w =>
        {| page := page w; session := Some address; effects := effects w |}) ;;
      ret None
  end.

(** [a || b] on strings. *)
Definition or_else (a b : string) : string :=
  if truthy a then a else b.

Definition handleEmailSubmit (auth : UseAuth) : M World AuthError unit :=
  effect PreventDefault ;;
  address <- gets (fun w => email (page w)) ;;
  if negb (truthy address) then
    effect (ShowToast {| title := "Error";
                         description := "Please enter your email address";
                         variant := Some "destructive" |})
  else
    setLoading true ;;
    error <- await_signInWithOtp auth address ;;
    match error with
    | Some error =>
        effect (ShowToast {| title := "Error";
                             description := or_else (message error) "Failed to send OTP";
                             variant := Some "destructive" |})
    | None =>
        effect (ShowToast {| title := "OTP Sent";
                             description := "Check your email for the verification code";
                             variant := None |}) ;;
        setStep OtpStep
    end ;;
    setLoading false.

Definition handleOtpSubmit (auth : UseAuth) : M World AuthError unit :=
  effect PreventDefault ;;
  code <- gets (fun w => otp (page w)) ;;
  if negb (truthy code) then
    effect (ShowToast {| title := "Error";
                         description := "Please enter the verification code";
                         variant := Some "destructive" |})
  else
    setLoading true ;;
    address <- gets (fun w => email (page w)) ;;
    error <- await_verifyOtp auth address code ;;
    match error with
    | Some error =>
        effect (ShowToast {| title := "Error";
                             description := or_else (message error) "Invalid verification code";
                             variant := Some "destructive" |})
    | None =>
        effect (ShowToast {| title := "Success";
                             description := "Successfully logged in!";
                             variant := None |}) ;;
        effect (Navigate "/")
    end ;;
    setLoading false.

(** The effects that reach the network. *)
Definition is_request (e : Effect) : bool :=
  match e with
  | RequestCode _ | VerifyCode _ _ => true
  | _ => false
  end.

Definition is_navigation (e : Effect) : bool :=
  match e with
  | Navigate _ => true
  | _ => false
  end.

(** [setEmail(e.target.value)], the change handler of the address field. *)
Definition setEmail (address : string) : M World AuthError unit :=
  modify (fun w =>
    {| page := {| email := address; otp := otp (page w);
                  step := step (page w); loading := loading (page w) |};
       session := session w; effects := effects w |}).

(** Lines 80-84, the button "Use Different Email". *)
Definition resetFlow : M World AuthError unit :=
  setStep EmailStep ;;
  setOtp "" ;;
  setEmail "".

(** Unfold the handlers down to the monad and compute. *)
Ltac run_auth :=
  unfold handleEmailSubmit, handleOtpSubmit, resetFlow, await_signInWithOtp,
    await_verifyOtp, effect, setLoading, setStep, setOtp, setEmail;
  run_eff.

(** *** Calls that reject

    The two calls of the hook return promises.  [UseAuth] above describes
    a service whose promises resolve to [{ error }].  A promise may also
    reject (the network is down, the hook throws); the handlers have no
    [try] around their [await], so the rejection leaves the handler at
    that point.  The definitions below are the two handlers over a service
    of which a call may reject. *)
Module Async.

(** How a promise settles. *)
Inductive Settled (A : Type) : Type :=
| Resolves (value : A)
| Rejects (reason : AuthError).
Arguments Resolves {A} _.
Arguments Rejects {A} _.

Record UseAuth : Type := {
  signInWithOtp : string -> Settled (Nullable AuthError);
  verifyOtp : string -> string -> Settled (Nullable AuthError)
}.

(** [await p]: the value of a promise that resolves; the reason of one
    that rejects is thrown. *)
Definition await {A : Type} (p : Settled A) : M World AuthError A :=
  match p with
  | Resolves value => ret value
  | Rejects reason => throw reason
  end.

(** [await signInWithOtp(email)]: one request for a code. *)
Definition await_signInWithOtp (auth : UseAuth) (address : string)
  : M World AuthError (Nullable AuthError) :=
  effect (RequestCode address) ;;
  await (signInWithOtp auth address).

(** Modelled from the spec: the hook [useAuth] is not among the sources.
    As in [Auth.await_verifyOtp], a verification that resolves without an
    error signs the address in; one that resolves with an error, or
    rejects, leaves the session as it is. *)
Definition await_verifyOtp (auth : UseAuth) (address code : string)
  : M World AuthError (Nullable AuthError) :=
  effect (VerifyCode address code) ;;
  error <- await (verifyOtp auth address code) ;;
  match error with
  | Some error => ret (Some error)
  | None =>
      modify (fun w =>
        {| page := page w; session := Some address; effects := effects w |}) ;;
      ret None
  end.

(** Lines 20-48. *)
Definition handleEmailSubmit (auth : UseAuth) : M World AuthError unit :=
  effect PreventDefault ;;
  address <- gets (fun w => email (page w)) ;;
  if negb (truthy address) then
    effect (ShowToast {| title := "Error";
                         description := "Please enter your email address";
                         variant := Some "destructive" |})
  else
    setLoading true ;;
    error <- await_signInWithOtp auth address ;;
    match error with
    | Some error =>
        effect (ShowToast {| title := "Error";
                             description := or_else (message error) "Failed to send OTP";
                             variant := Some "destructive" |})
    | None =>
        effect (ShowToast {| title := "OTP Sent";
                             description := "Check your email for the verification code";
                             variant := None |}) ;;
        setStep OtpStep
    end ;;
    setLoading false.

(** Lines 50-78. *)
Definition handleOtpSubmit (auth : UseAuth) : M World AuthError unit :=
  effect PreventDefault ;;
  code <- gets (fun w => otp (page w)) ;;
  if negb (truthy code) then
    effect (ShowToast {| title := "Error";
                         description := "Please enter the verification code";
                         variant := Some "destructive" |})
  else
    setLoading true ;;
    address <- gets (fun w => email (page w)) ;;
    error <- await_verifyOtp auth address code ;;
    match error with
    | Some error =>
        effect (ShowToast {| title := "Error";
                             description := or_else (message error) "Invalid verification code";
                             variant := Some "destructive" |})
    | None =>
        effect (ShowToast {| title := "Success";
                             description := "Successfully logged in!";
                             variant := None |}) ;;
        effect (Navigate "/")
    end ;;
    setLoading false.

End Async.

(** A service whose calls all resolve, as a service of which a call may
    reject. *)
Definition resolving (auth : UseAuth) : Async.UseAuth :=
  {| Async.signInWithOtp := fun address => Async.Resolves (signInWithOtp auth address);
     Async.verifyOtp := fun address code => Async.Resolves (verifyOtp auth address code) |}.

Ltac run_async :=
  unfold Async.handleEmailSubmit, Async.handleOtpSubmit, Async.await_signInWithOtp,
    Async.await_verifyOtp, Async.await, effect, setLoading, setStep, setOtp, setEmail;
  run_eff.

End Auth.

(* --------------------------------------------------------------------- *)
(** ** The Activities page ([src/pages/Activities.tsx]): [formatDateTime] *)
(* --------------------------------------------------------------------- *)
Module Activities.

(** A time value of a [Date]: milliseconds since the epoch, [None] for the
    invalid date (NaN).  The values that occur are whole numbers below
    2^53, on which the arithmetic of JavaScript numbers is exact. *)
Definition TimeValue : Type := option Z.

(** A [Date] holds at most 8.64e15 ms on either side of the epoch. *)
Definition maxTime : Z := 8640000000000000.

(** [new Date(value)] for a number: out of range gives the invalid date. *)
Definition TimeClip (value : TimeValue) : TimeValue :=
  match value with
  | Some t => if (Z.abs t <=? maxTime)%Z then Some t else None
  | None => None
  end.

(** [a + b] on time values: NaN is absorbing. *)
Definition plus (a : TimeValue) (b : Z) : TimeValue :=
  match a with
  | Some t => Some (t + b)%Z
  | None => None
  end.

(** [5.5 * 60 * 60 * 1000], with 5.5 written as 11/2. *)
Definition istOffset : Z := (11 * 60 * 60 * 1000 / 2)%Z.

(** The options given to [toLocaleString]; the call names no [timeZone]. *)
Record DateTimeFormatOptions : Type := {
  year : string;
  month : string;
  day : string;
  hour : string;
  minute : string;
  hour12 : bool;
  timeZone : Optional string
}.

Section FormatDateTime.

(** [new Date(string)]: the time value the language parses from a date
    string. *)
Variable Date_parse : string -> TimeValue.

(** [date.toLocaleString(locale, options)], which formats a time value in
    the zone of [options], the zone of the runtime when none is given. *)
Variable toLocaleString : TimeValue -> string -> DateTimeFormatOptions -> string.

Definition formatDateTime (dateString : string) : string :=
  let utcDate := Date_parse (dateString ++ (if includes dateString "Z" then "" else "Z"))%string in
  let istDate := TimeClip (plus utcDate istOffset) in
  toLocaleString istDate "en-IN"
    {| year := "numeric"; month := "short"; day := "numeric";
       hour := "2-digit"; minute := "2-digit"; hour12 := true;
       timeZone := None |}.

End FormatDateTime.
(** *** The activity search filter (lines 64-68 and 287-291) *)

(** The joined user of an activity ([users:user_id (name, phone)]). *)
Module User.
Record t : Type := {
  name : Nullable string;
  phone : string
}.
End User.

(** The joined site of an activity ([sites:site_id (name, location)]). *)
Module Site.
Record t : Type := {
  name : string;
  location : Nullable string
}.
End Site.

(** A row of the activities query: the columns of the table [activities]
    ([integrations/supabase/types.ts], [Row]; the JSON column [details]
    kept as text) and the two joins. *)
Module Activity.
Record t (number : Type) : Type := {
  activity_type : Nullable string;
  created_at : Nullable string;
  description : Nullable string;
  details : Nullable string;
  hours : Nullable number;
  id : string;
  image_key : Nullable string;
  image_url : Nullable string;
  site_id : Nullable string;
  user_id : Nullable string;
  users : Nullable User.t;
  sites : Nullable Site.t
}.
Arguments activity_type {number} _.
Arguments created_at {number} _.
Arguments description {number} _.
Arguments details {number} _.
Arguments hours {number} _.
Arguments id {number} _.
Arguments image_key {number} _.
Arguments image_url {number} _.
Arguments site_id {number} _.
Arguments user_id {number} _.
Arguments users {number} _.
Arguments sites {number} _.
End Activity.

(** [x?.f] for a field that may itself be null. *)
Definition through {A : Type} (x : Nullable A) (f : A -> Nullable string) : Nullable string :=
  match x with
  | Some a => f a
  | None => None
  end.

Section Search.
Context {number : Type}.
Variable toLowerCase : string -> string.

(** [activities?.filter(activity => ... || ... || ...) || []] *)
Definition filteredActivities (activities : Optional (list (Activity.t number)))
    (searchTerm : string) : list (Activity.t number) :=
  match activities with
  | Some rows =>
      filter (fun activity =>
                Inventory.field_matches toLowerCase (Activity.activity_type activity) searchTerm
                || Inventory.field_matches toLowerCase (Activity.description activity) searchTerm
                || Inventory.field_matches toLowerCase
                     (through (Activity.users activity) User.name) searchTerm) rows
  | None => []
  end.

End Search.

(** *** The image viewer (lines 318-345 and the buttons of lines 514-538) *)

Import QArith Qminmax.
Local Open Scope Q_scope.

(** The bucket's public address, the prefix of every image URL. *)
Definition imageBase : string := "https://pub-480de15262b346c8b5ebf5e8141b43f9.r2.dev/".

(** [getImageUrl]: null for a null or empty key. *)
Definition getImageUrl (imageKey : Nullable string) : Nullable string :=
  match imageKey with
  | Some key => if truthy key then Some (imageBase ++ key)%string else None
  | None => None
  end.

(** The viewer's state: [selectedImage], [imageZoom], [isImageDialogOpen].
    The zoom is a rational number: the values the handlers produce are
    quarters between 1/2 and 3, on which the arithmetic of JavaScript
    numbers is exact. *)
Record Viewer : Type := {
  selectedImage : Nullable string;
  imageZoom : Q;
  isImageDialogOpen : bool
}.

(** The state the component starts in. *)
Definition initialViewer : Viewer :=
  {| selectedImage := None; imageZoom := 1; isImageDialogOpen := false |}.

Definition setImageZoom (update : Q -> Q) (v : Viewer) : Viewer :=
  {| selectedImage := selectedImage v;
     imageZoom := update (imageZoom v);
     isImageDialogOpen := isImageDialogOpen v |}.

Definition handleImageClick (imageKey : string) (v : Viewer) : Viewer :=
  {| selectedImage := getImageUrl (Some imageKey);
     imageZoom := 1;
     isImageDialogOpen := true |}.

(** [setImageZoom(prev => Math.min(prev + 0.25, 3))] *)
Definition handleZoomIn (v : Viewer) : Viewer :=
  setImageZoom (fun prev => Qmin (prev + (1 # 4)) 3) v.

(** [setImageZoom(prev => Math.max(prev - 0.25, 0.5))] *)
Definition handleZoomOut (v : Viewer) : Viewer :=
  setImageZoom (fun prev => Qmax (prev - (1 # 4)) (1 # 2)) v.

Definition resetZoom (v : Viewer) : Viewer :=
  setImageZoom (fun _ => 1) v.

(** [disabled={imageZoom >= 3}] and [disabled={imageZoom <= 0.5}] on the
    two zoom buttons. *)
Definition zoomInDisabled (v : Viewer) : bool :=
  Qle_bool 3 (imageZoom v).

Definition zoomOutDisabled (v : Viewer) : bool :=
  Qle_bool (imageZoom v) (1 # 2).

(** What the user can do with the viewer. *)
Inductive ViewerAction : Type :=
| ClickImage (imageKey : string)
| ZoomIn
| ZoomOut
| ResetZoom.

Definition viewerStep (a : ViewerAction) (v : Viewer) : Viewer :=
  match a with
  | ClickImage imageKey => handleImageClick imageKey v
  | ZoomIn => handleZoomIn v
  | ZoomOut => handleZoomOut v
  | ResetZoom => resetZoom v
  end.

(** The viewer after a sequence of actions from its initial state. *)
Definition viewerAfter (actions : list ViewerAction) : Viewer :=
  fold_left (fun v a => viewerStep a v) actions initialViewer.

(** A zoom factor that is a whole number of quarters between 2/4 and
    12/4. *)
Definition on_quarter_grid (zoom : Q) : Prop :=
  exists k : Z, (2 <= k <= 12)%Z /\ zoom == inject_Z k * (1 # 4).

End Activities.

(* --------------------------------------------------------------------- *)
(** ** The Bookings page *)
(* --------------------------------------------------------------------- *)
Module Bookings.

(** A row of the table [bookings]
    ([integrations/supabase/types.ts], [Row]). *)
Module Booking.
Record t (number : Type) : Type := {
  created_at : Nullable string;
  customer_name : Nullable string;
  customer_phone : Nullable string;
  duration_minutes : Nullable number;
  id : string;
  notes : Nullable string;
  slot_time : Nullable string;
  status : Nullable string;
  updated_at : Nullable string
}.
Arguments created_at {number} _.
Arguments customer_name {number} _.
Arguments customer_phone {number} _.
Arguments duration_minutes {number} _.
Arguments id {number} _.
Arguments notes {number} _.
Arguments slot_time {number} _.
Arguments status {number} _.
Arguments updated_at {number} _.
End Booking.

Section Search.
Context {number : Type}.
Variable toLowerCase : string -> string.

(** [customer_phone?.includes(searchTerm)]: the phone is compared as it
    is written, without lower-casing. *)
Definition phone_matches (phone : Nullable string) (searchTerm : string) : bool :=
  match phone with
  | Some digits => includes digits searchTerm
  | None => false
  end.

(** [bookings?.filter(booking => ... || ...) || []] *)
Definition filteredBookings (bookings : Optional (list (Booking.t number)))
    (searchTerm : string) : list (Booking.t number) :=
  match bookings with
  | Some rows =>
      filter (fun booking =>
                Inventory.field_matches toLowerCase (Booking.customer_name booking) searchTerm
                || phone_matches (Booking.customer_phone booking) searchTerm) rows
  | None => []
  end.

End Search.
End Bookings.

(* --------------------------------------------------------------------- *)
(** ** The User Site Assignments page *)
(* --------------------------------------------------------------------- *)
Module Assignments.

(** A row of the table [user_site_assignments]
    ([integrations/supabase/types.ts], [Row]; the JSON column
    [permissions] kept as text). *)
Module Assignment.
Record t : Type := {
  assigned_by : Nullable string;
  created_at : Nullable string;
  id : string;
  notes : Nullable string;
  permissions : Nullable string;
  role : Nullable string;
  site_id : string;
  status : Nullable string;
  updated_at : Nullable string;
  user_id : string
}.
End Assignment.

(** The columns of [users] the page selects: [id, name, phone, role]. *)
Module User.
Record t : Type := {
  id : string;
  name : Nullable string;
  phone : string;
  role : string
}.
End User.

(** The columns of [sites] the page selects: [id, name, location]. *)
Module Site.
Record t : Type := {
  id : string;
  name : string;
  location : Nullable string
}.
End Site.

(** [{ ...assignment, users: user, sites: site }]: the assignment's own
    columns with the user and the site found for it, undefined when none
    was found. *)
Module Enriched.
Record t : Type := {
  assignment : Assignment.t;
  users : Optional User.t;
  sites : Optional Site.t
}.
End Enriched.

(** [list?.find(pred)]: undefined when the list is not loaded yet or no
    element passes. *)
Definition find_in {A : Type} (source : Optional (list A)) (pred : A -> bool) : Optional A :=
  match source with
  | Some elements => find pred elements
  | None => None
  end.

(** Lines 74-83: the assignments joined in the page with their user and
    their site. *)
Definition enrichedAssignments (assignments : Optional (list Assignment.t))
    (users : Optional (list User.t)) (sites : Optional (list Site.t)) : list Enriched.t :=
  match assignments with
  | Some rows =>
      map (fun assignment =>
             {| Enriched.assignment := assignment;
                Enriched.users :=
                  find_in users (fun u => String.eqb (User.id u) (Assignment.user_id assignment));
                Enriched.sites :=
                  find_in sites (fun s => String.eqb (Site.id s) (Assignment.site_id assignment)) |})
          rows
  | None => []
  end.

Section Search.
Variable toLowerCase : string -> string.

(** Lines 164-168. *)
Definition filteredAssignments (enriched : list Enriched.t) (searchTerm : string)
  : list Enriched.t :=
  filter (fun assignment =>
            Inventory.field_matches toLowerCase
              (Activities.through (Enriched.users assignment) User.name) searchTerm
            || Inventory.field_matches toLowerCase
                 (Activities.through (Enriched.sites assignment) (fun s => Some (Site.name s)))
                 searchTerm
            || Inventory.field_matches toLowerCase
                 (Assignment.role (Enriched.assignment assignment)) searchTerm) enriched.

End Search.
End Assignments.

(* --------------------------------------------------------------------- *)
(** ** Sample data *)
(* --------------------------------------------------------------------- *)
Module Sample.
Import Inventory.

Definition cement : Joined.t :=
  {| Joined.id := "A"; Joined.name := "Cement"; Joined.category := Some "Binding";
     Joined.unit := "bag" |}.

Definition sand : Joined.t :=
  {| Joined.id := "B"; Joined.name := "Sand"; Joined.category := None;
     Joined.unit := "ton" |}.

Definition items : list Joined.t := [cement; sand].

Definition row (id item : string) (previous stock : Z) (at_time : string) (site : string)
  : Row.t Z :=
  {| Row.created_at := Some at_time; Row.created_by := None; Row.id := id;
     Row.image_key := None; Row.image_url := None; Row.item_id := item;
     Row.new_stock := stock; Row.notes := None; Row.previous_stock := previous;
     Row.quantity := (stock - previous)%Z; Row.site_id := Some site;
     Row.transaction_type := "adjustment" |}.

(** The log of the specification's example at site [s1] (item A at 5 and
    item B at 9 on the second day, item A at 3 on the first), and a row of
    another site. *)
Definition log : list (Row.t Z) :=
  [ row "r4" "A" 3 5 "2024-05-02" "s1";
    row "r3" "B" 0 9 "2024-05-02" "s1";
    row "r2" "A" 0 7 "2024-05-03" "s2";
    row "r1" "A" 0 3 "2024-05-01" "s1" ].

(** The day of the month of the sample dates as ordering key. *)
Definition instant (created_at : Nullable string) : Z :=
  match created_at with
  | Some "2024-05-01" => 1
  | Some "2024-05-02" => 2
  | Some "2024-05-03" => 3
  | _ => 0
  end.

(** The rows the fallback query returns for site [s1]. *)
Definition transactions : list (Transaction Z) :=
  map (selected items) (filter (at_site "s1") log).

Definition item (id name : string) (category : Nullable string) (unit : string) : Item.t :=
  {| Item.category := category; Item.created_at := None; Item.created_by := None;
     Item.gujarati_category := None; Item.gujarati_name := None;
     Item.gujarati_unit := None; Item.id := id; Item.item_code := None;
     Item.name := name; Item.status := Some "active"; Item.unit := unit;
     Item.updated_at := None |}.

Definition inventory : list Item.t :=
  [ item "A" "Cement" (Some "Binding") "bag"; item "B" "Sand" None "ton" ].

(** A store without the aggregation procedure. *)
Definition supabase : Supabase Z :=
  {| rpc_get_site_stock_summary := fun _ =>
       {| data := None; error := Some {| message := "function not found" |} |};
     select_transactions := fun site =>
       {| data := Some (map (selected items) (filter (at_site site) log)); error := None |} |}.

Definition start : QueryWorld Z := {| requests := []; heap := [] |}.

(** The stock summary of the sample log at site [s1] as a server procedure
    may report it, item B before item A. *)
Definition served : list (StockSummary.t Z) :=
  [ {| StockSummary.item_id := "B"; StockSummary.current_stock := 9%Z;
       StockSummary.item_name := Some "Sand"; StockSummary.item_category := Some None;
       StockSummary.item_unit := Some "ton"; StockSummary.last_updated := Some "2024-05-02" |};
    {| StockSummary.item_id := "A"; StockSummary.current_stock := 5%Z;
       StockSummary.item_name := Some "Cement";
       StockSummary.item_category := Some (Some "Binding");
       StockSummary.item_unit := Some "bag"; StockSummary.last_updated := Some "2024-05-02" |} ].

(** A store that has the aggregation procedure. *)
Definition serving : Supabase Z :=
  {| rpc_get_site_stock_summary := fun _ => {| data := Some served; error := None |};
     select_transactions := fun site =>
       {| data := Some (map (selected items) (filter (at_site site) log)); error := None |} |}.

(** A router that matches the splat against everything and another
    pattern against itself. *)
Definition matchPath (pattern pathname : string) : bool :=
  if String.eqb pattern "*" then true else String.eqb pattern pathname.

Definition signed_in : App.AuthContext string :=
  {| App.user := Some "admin@example.com"; App.loading := false |}.

(** An authentication service that refuses every code. *)
Definition refusing : Auth.UseAuth :=
  {| Auth.signInWithOtp := fun _ => None;
     Auth.verifyOtp := fun _ _ => Some {| Auth.message := "Token has expired or is invalid" |} |}.

Definition blank_form : Auth.World :=
  {| Auth.page := {| Auth.email := ""; Auth.otp := ""; Auth.step := Auth.EmailStep;
                     Auth.loading := false |};
     Auth.session := None;
     Auth.effects := [] |}.

Definition address_entered : Auth.World :=
  {| Auth.page := {| Auth.email := "admin@example.com"; Auth.otp := "";
                     Auth.step := Auth.EmailStep; Auth.loading := false |};
     Auth.session := None;
     Auth.effects := [] |}.

Definition code_entered : Auth.World :=
  {| Auth.page := {| Auth.email := "admin@example.com"; Auth.otp := "123456";
                     Auth.step := Auth.OtpStep; Auth.loading := false |};
     Auth.session := None;
     Auth.effects := [] |}.

(** A store in which neither the procedure nor the table can be read. *)
Definition unreachable : Supabase Z :=
  {| rpc_get_site_stock_summary := fun _ =>
       {| data := None; error := Some {| message := "function not found" |} |};
     select_transactions := fun _ =>
       {| data := None; error := Some {| message := "permission denied" |} |} |}.

(** A store that accepts every write, and a user who declines every
    confirmation. *)
Definition accepting : Write -> Nullable PostgrestError := fun _ => None.

Definition declining : string -> bool := fun _ => false.

Definition blank_page : Page unit :=
  {| cache := [ {| queryKey := ["inventory-items"]; state_data := tt;
                   isInvalidated := false |} ];
     toasts := []; sent := [];
     isAddDialogOpen := false; isEditDialogOpen := false;
     editingItem := None;
     form := Form.defaultValues; formDefaults := Form.defaultValues |}.

(** An authentication service that sends every code and accepts every
    code. *)
Definition granting : Auth.UseAuth :=
  {| Auth.signInWithOtp := fun _ => None;
     Auth.verifyOtp := fun _ _ => None |}.

(** An authentication service that cannot be reached: every call
    rejects. *)
Definition offline : Auth.Async.UseAuth :=
  {| Auth.Async.signInWithOtp := fun _ => Auth.Async.Rejects {| Auth.message := "Failed to fetch" |};
     Auth.Async.verifyOtp := fun _ _ => Auth.Async.Rejects {| Auth.message := "Failed to fetch" |} |}.

Definition gravel : Form.t :=
  {| Form.name := "Gravel"; Form.category := "Aggregate"; Form.unit := "ton";
     Form.status := "active" |}.

End Sample.

(* ===================================================================== *)
(** * Part II: theorems *)
(* ===================================================================== *)

(** ** Truthiness *)

Lemma truthy_nonempty (s : string) : s <> "" -> truthy s = true.
Proof.
  destruct s; [congruence | reflexivity].
Qed.

(** ** Maps and the heap *)

Lemma has_existsb {V : Type} (m : JsMap.t V) (k : string) :
  JsMap.has m k = existsb (fun k' => String.eqb k' k) (JsMap.keys m).
Proof.
  induction m as [| [k' v'] m IH]; simpl; [reflexivity |].
  destruct (String.eqb k' k); [reflexivity | exact IH].
Qed.

Lemma set_fresh {V : Type} (m : JsMap.t V) (k : string) (v : V) :
  JsMap.has m k = false -> JsMap.set m k v = m ++ [(k, v)].
Proof.
  induction m as [| [k' v'] m IH]; simpl; intros H; [reflexivity |].
  destruct (String.eqb k' k); [discriminate |].
  now rewrite IH.
Qed.

Lemma read_last {V : Type} (h : Heap.t V) (m : JsMap.t V) :
  Heap.read (h ++ [m]) (List.length h) = m.
Proof.
  unfold Heap.read. rewrite app_nth2 by lia. now rewrite Nat.sub_diag.
Qed.

Lemma write_last {V : Type} (h : Heap.t V) (m m' : JsMap.t V) :
  Heap.write (h ++ [m]) (List.length h) m' = h ++ [m'].
Proof.
  induction h as [| x h IH]; simpl; [reflexivity | now rewrite IH].
Qed.

(** ** Substrings *)

Lemma startsWith_spec (sub : string) : forall s,
  startsWith s sub = true <-> exists post, s = (sub ++ post)%string.
Proof.
  induction sub as [| c sub IH]; intros s; simpl.
  - split; [intros _; now exists s | reflexivity].
  - destruct s as [| d s]; simpl.
    + split; [discriminate | intros [post H]; discriminate].
    + destruct (Ascii.eqb c d) eqn:Hcd.
      * apply Ascii.eqb_eq in Hcd. subst d. rewrite IH.
        split; intros [post H]; exists post; congruence.
      * apply Ascii.eqb_neq in Hcd.
        split; [discriminate | intros [post H]; congruence].
Qed.

Lemma includes_spec (sub : string) : forall s,
  includes s sub = true <-> occurs_in sub s.
Proof.
  unfold occurs_in. induction s as [| d s IH].
  - simpl. destruct (startsWith "" sub) eqn:Hs.
    + apply startsWith_spec in Hs. destruct Hs as [post Hs].
      split; [intros _; now exists "", post | reflexivity].
    + split; [discriminate |]. intros [pre [post H]].
      destruct pre; simpl in H; [| discriminate].
      assert (startsWith "" sub = true) by (apply startsWith_spec; now exists post).
      congruence.
  - cbn [includes]. destruct (startsWith (String d s) sub) eqn:Hs.
    + apply startsWith_spec in Hs. destruct Hs as [post Hs].
      split; [intros _; now exists "", post | reflexivity].
    + rewrite IH. split.
      * intros [pre [post H]]. exists (String d pre), post. simpl. now rewrite H.
      * intros [pre [post H]]. destruct pre as [| c pre]; simpl in H.
        -- assert (startsWith (String d s) sub = true)
             by (apply startsWith_spec; now exists post).
           congruence.
        -- exists pre, post. congruence.
Qed.

Lemma includes_false (sub s : string) :
  includes s sub = false <-> ~ occurs_in sub s.
Proof.
  rewrite <- includes_spec. destruct (includes s sub); split; congruence.
Qed.

Module InventoryFacts.
Import Inventory.

Section Scan.
Context {number E : Type}.
Implicit Types (rows : list (Transaction number)) (seen : list string).
Implicit Types (m : JsMap.t (StockSummary.t number)) (h : Heap.t (StockSummary.t number)).

(** The callback loop only touches the map it was given. *)
Lemma forEach_scan rows : forall h m,
  forEach (E := E) rows (fun transaction =>
      present <- Map_has (List.length h) (item_id transaction) ;;
      if negb present
      then Map_set (List.length h) (item_id transaction) (summary_of transaction)
      else ret tt) (h ++ [m])
  = (Ok tt, h ++ [fold_left scan_step rows m]).
Proof.
  induction rows as [| t rows IH]; intros h m; simpl; [reflexivity |].
  unfold bind at 1. unfold bind at 1. unfold Map_has at 1, gets at 1.
  rewrite read_last. unfold scan_step at 2.
  destruct (JsMap.has m (item_id t)); simpl.
  - apply IH.
  - unfold Map_set, modify. rewrite read_last, write_last. apply IH.
Qed.

Lemma fold_scan rows : forall m,
  fold_left scan_step rows m = m ++ map entry (first_seen (JsMap.keys m) rows).
Proof.
  induction rows as [| t rows IH]; intros m; simpl.
  - now rewrite app_nil_r.
  - unfold scan_step at 2. rewrite <- has_existsb.
    destruct (JsMap.has m (item_id t)) eqn:Hhas; simpl.
    + apply IH.
    + rewrite IH, set_fresh by exact Hhas.
      unfold JsMap.keys. rewrite map_app, <- app_assoc. reflexivity.
Qed.

Lemma stockMapScan_rows rows h :
  stockMapScan (E := E) (Some rows) h
  = (Ok (map summary_of (first_seen [] rows)), h ++ [map entry (first_seen [] rows)]).
Proof.
  unfold stockMapScan, new_Map, Heap.alloc, bind at 1.
  unfold bind at 1. rewrite forEach_scan.
  unfold Map_values, gets. rewrite read_last, fold_scan. simpl.
  unfold JsMap.values. rewrite map_map. reflexivity.
Qed.

Lemma stockMapScan_null h :
  stockMapScan (number := number) (E := E) None h = (Ok [], h ++ [[]]).
Proof.
  unfold stockMapScan, new_Map, Heap.alloc, Map_values. run_eff.
  now rewrite read_last.
Qed.

(** *** What [first_seen] keeps *)

Lemma first_seen_In rows : forall seen t,
  In t (first_seen seen rows) ->
  In t rows /\ existsb (fun k => String.eqb k (item_id t)) seen = false.
Proof.
  induction rows as [| r rows IH]; simpl; intros seen t H; [contradiction |].
  destruct (existsb _ seen) eqn:Hseen.
  - apply IH in H. tauto.
  - destruct H as [<- | H]; [tauto |].
    apply IH in H. destruct H as [Hin Hex].
    rewrite existsb_app in Hex. apply orb_false_iff in Hex. tauto.
Qed.

Lemma first_seen_NoDup rows : forall seen,
  NoDup (map item_id (first_seen seen rows)).
Proof.
  induction rows as [| r rows IH]; simpl; intros seen; [constructor |].
  destruct (existsb _ seen); [apply IH |].
  simpl. constructor; [| apply IH].
  intros Hin. apply in_map_iff in Hin. destruct Hin as [t [Hk Ht]].
  apply first_seen_In in Ht. destruct Ht as [_ Hex].
  rewrite existsb_app in Hex. apply orb_false_iff in Hex.
  destruct Hex as [_ Hex]. simpl in Hex. rewrite Hk, String.eqb_refl in Hex.
  discriminate.
Qed.

Lemma first_transaction_first_seen rows : forall seen k,
  first_transaction k (first_seen seen rows)
  = if existsb (fun k' => String.eqb k' k) seen then None else first_transaction k rows.
Proof.
  unfold first_transaction.
  induction rows as [| r rows IH]; simpl; intros seen k.
  - now destruct (existsb _ seen).
  - destruct (existsb (fun k' => String.eqb k' (item_id r)) seen) eqn:Hr.
    + rewrite IH. destruct (existsb (fun k' => String.eqb k' k) seen) eqn:Hk; [reflexivity |].
      destruct (String.eqb (item_id r) k) eqn:Heq; [| reflexivity].
      apply String.eqb_eq in Heq. subst k. congruence.
    + simpl. destruct (String.eqb (item_id r) k) eqn:Heq.
      * apply String.eqb_eq in Heq. subst k. now rewrite Hr.
      * rewrite IH, existsb_app. simpl. rewrite Heq, orb_false_r. reflexivity.
Qed.

Lemma first_transaction_Some rows k :
  In k (map item_id rows) <-> exists t, first_transaction k rows = Some t.
Proof.
  unfold first_transaction. split.
  - intros H. apply in_map_iff in H. destruct H as [t [Hk Ht]].
    destruct (find _ rows) as [t' |] eqn:Hf; [now exists t' |].
    apply (find_none _ _ Hf) in Ht. rewrite Hk, String.eqb_refl in Ht. discriminate.
  - intros [t Hf]. apply find_some in Hf. destruct Hf as [Hin Heq].
    apply String.eqb_eq in Heq. apply in_map_iff. now exists t.
Qed.

Lemma first_transaction_key rows k t :
  first_transaction k rows = Some t -> item_id t = k /\ In t rows.
Proof.
  unfold first_transaction. intros Hf. apply find_some in Hf.
  destruct Hf as [Hin Heq]. apply String.eqb_eq in Heq. tauto.
Qed.

(** In a list without two transactions of one item, the transaction of an
    item is the first one. *)
Lemma NoDup_first_transaction rows t :
  NoDup (map item_id rows) -> In t rows -> first_transaction (item_id t) rows = Some t.
Proof.
  unfold first_transaction.
  induction rows as [| r rows IH]; simpl; intros Hnd Hin; [contradiction |].
  inversion Hnd as [| ? ? Hnotin Hnd']; subst.
  destruct Hin as [-> | Hin]; [now rewrite String.eqb_refl |].
  destruct (String.eqb (item_id r) (item_id t)) eqn:Heq; [| now apply IH].
  apply String.eqb_eq in Heq. exfalso. apply Hnotin. rewrite Heq. now apply in_map.
Qed.

Lemma summary_keys rows :
  map StockSummary.item_id (map summary_of rows) = map (item_id (number := number)) rows.
Proof.
  rewrite map_map. reflexivity.
Qed.

(** *** Positions *)

Lemma option_map_S_Some (x : option nat) (i : nat) :
  option_map S x = Some i -> exists i', x = Some i' /\ i = S i'.
Proof.
  destruct x as [i' |]; simpl; intros H; [| discriminate].
  exists i'. split; congruence.
Qed.

Lemma index_of_first_seen rows : forall seen a b ia ib,
  existsb (fun k => String.eqb k a) seen = false ->
  existsb (fun k => String.eqb k b) seen = false ->
  index_of a (map item_id rows) = Some ia ->
  index_of b (map item_id rows) = Some ib ->
  exists ja jb,
    index_of a (map item_id (first_seen seen rows)) = Some ja /\
    index_of b (map item_id (first_seen seen rows)) = Some jb /\
    (ja < jb <-> ia < ib).
Proof.
  induction rows as [| r rows IH]; simpl; intros seen a b ia ib Hsa Hsb Hia Hib;
    [discriminate |].
  assert (Hfresh : forall c, existsb (fun k => String.eqb k c) seen = false ->
            String.eqb (item_id r) c = false ->
            existsb (fun k => String.eqb k c) (seen ++ [item_id r]) = false).
  { intros c Hc Hne. rewrite existsb_app, Hc. simpl. now rewrite Hne. }
  destruct (String.eqb (item_id r) a) eqn:Ha, (String.eqb (item_id r) b) eqn:Hb.
  - (* the row carries both keys *)
    assert (Hr : existsb (fun k => String.eqb k (item_id r)) seen = false).
    { pose proof Ha as Ha'. apply String.eqb_eq in Ha'. now rewrite Ha'. }
    rewrite Hr. simpl. rewrite Ha, Hb.
    exists 0, 0. injection Hia as <-. injection Hib as <-. tauto.
  - (* the row is the first of a *)
    apply option_map_S_Some in Hib. destruct Hib as [ib' [Hib ->]].
    assert (Hr : existsb (fun k => String.eqb k (item_id r)) seen = false).
    { pose proof Ha as Ha'. apply String.eqb_eq in Ha'. now rewrite Ha'. }
    rewrite Hr. simpl. rewrite Ha, Hb.
    destruct (IH (seen ++ [item_id r]) b b ib' ib') as [jb [_ [Hjb [_ _]]]];
      auto.
    rewrite Hjb. simpl. exists 0, (S jb). injection Hia as <-.
    repeat split; auto; lia.
  - (* the row is the first of b *)
    apply option_map_S_Some in Hia. destruct Hia as [ia' [Hia ->]].
    assert (Hr : existsb (fun k => String.eqb k (item_id r)) seen = false).
    { pose proof Hb as Hb'. apply String.eqb_eq in Hb'. now rewrite Hb'. }
    rewrite Hr. simpl. rewrite Ha, Hb.
    destruct (IH (seen ++ [item_id r]) a a ia' ia') as [ja [_ [Hja [_ _]]]];
      auto.
    rewrite Hja. simpl. exists (S ja), 0. injection Hib as <-.
    repeat split; auto; lia.
  - apply option_map_S_Some in Hia. destruct Hia as [ia' [Hia ->]].
    apply option_map_S_Some in Hib. destruct Hib as [ib' [Hib ->]].
    destruct (existsb (fun k => String.eqb k (item_id r)) seen) eqn:Hr.
    + destruct (IH seen a b ia' ib') as [ja [jb [Hja [Hjb Hlt]]]]; auto.
      exists ja, jb. repeat split; auto; lia.
    + simpl. rewrite Ha, Hb.
      destruct (IH (seen ++ [item_id r]) a b ia' ib') as [ja [jb [Hja [Hjb Hlt]]]];
        auto.
      rewrite Hja, Hjb. simpl. exists (S ja), (S jb). repeat split; auto; lia.
Qed.

(** In a list without repetition a key stands at the position [index_of]
    gives and nowhere else. *)
Lemma index_of_only (l : list string) : forall k i,
  NoDup l -> index_of k l = Some i ->
  forall j, nth_error l j = Some k <-> j = i.
Proof.
  induction l as [| x l IH]; simpl; intros k i Hnd Hi j; [discriminate |].
  inversion Hnd as [| ? ? Hnotin Hnd']; subst.
  destruct (String.eqb x k) eqn:Hx.
  - apply String.eqb_eq in Hx. subst x. injection Hi as <-.
    destruct j as [| j]; simpl; [tauto |].
    split; [| discriminate]. intros Hj. apply nth_error_In in Hj. contradiction.
  - apply String.eqb_neq in Hx.
    apply option_map_S_Some in Hi. destruct Hi as [i' [Hi ->]].
    destruct j as [| j]; simpl.
    + split; [intros H; injection H as H; contradiction | discriminate].
    + rewrite (IH k i' Hnd' Hi j). split; [intros ->; reflexivity | intros H; now injection H].
Qed.

End Scan.

(** *** The fallback over a sorted log *)

Lemma StronglySorted_after {A : Type} (R : A -> A -> Prop) (pre : list A) (x : A) (post : list A) :
  StronglySorted R (pre ++ x :: post) -> Forall (R x) post.
Proof.
  induction pre as [| y pre IH]; simpl; intros H.
  - now apply StronglySorted_inv in H.
  - apply StronglySorted_inv in H. now apply IH.
Qed.

Section LogFacts.
Context {number : Type}.
Variable instant : Nullable string -> Z.
Implicit Types (log sorted : list (Row.t number)) (items : list Joined.t).

Lemma first_selected items k t sorted :
  first_transaction k (map (selected items) sorted) = Some t ->
  exists pre r post,
    sorted = pre ++ r :: post /\ selected items r = t /\ Row.item_id r = k /\
    Forall (fun x => Row.item_id x <> k) pre.
Proof.
  unfold first_transaction.
  induction sorted as [| r sorted IH]; simpl; intros H; [discriminate |].
  destruct (String.eqb (Row.item_id r) k) eqn:Hk.
  - apply String.eqb_eq in Hk. injection H as <-.
    exists [], r, sorted. auto.
  - apply IH in H. destruct H as [pre [r' [post [-> [Ht [Hr' Hpre]]]]]].
    exists (r :: pre), r', post. repeat split; auto.
    constructor; [| exact Hpre]. now apply String.eqb_neq.
Qed.

Lemma first_seen_is_first (rows : list (Transaction number)) t :
  In t (first_seen [] rows) -> first_transaction (item_id t) rows = Some t.
Proof.
  intros Hin.
  pose proof (NoDup_first_transaction _ t (first_seen_NoDup rows []) Hin) as Hf.
  now rewrite first_transaction_first_seen in Hf.
Qed.

Lemma at_site_log log site sorted r :
  Permutation sorted (filter (at_site site) log) ->
  In r sorted <-> In r log /\ at_site site r = true.
Proof.
  intros Hperm. rewrite <- filter_In. split; apply Permutation_in; auto.
  now apply Permutation_sym.
Qed.

(** On the store's answer the scan yields a summary the server procedure
    is allowed to return. *)
Lemma fallback_is_site_stock_summary log items site rows :
  answers_fallback_query instant log items site rows ->
  is_site_stock_summary instant log items site (map summary_of (first_seen [] rows)).
Proof.
  intros [sorted [Hperm [Hsorted ->]]].
  unfold is_site_stock_summary. rewrite summary_keys.
  split; [apply first_seen_NoDup |]. split.
  - intros k. split.
    + intros Hin. apply in_map_iff in Hin. destruct Hin as [t [Hk Ht]].
      apply first_seen_In in Ht. destruct Ht as [Ht _].
      apply in_map_iff in Ht. destruct Ht as [r [<- Hr]].
      apply (at_site_log log site sorted r Hperm) in Hr.
      exists r. simpl in Hk. tauto.
    + intros [r [Hr [Hsite Hk]]].
      assert (Hin : In k (map item_id (map (selected items) sorted))).
      { rewrite map_map. apply in_map_iff. exists r. split; [exact Hk |].
        apply (at_site_log log site sorted r Hperm). tauto. }
      apply first_transaction_Some in Hin. destruct Hin as [t Ht].
      pose proof (first_transaction_first_seen (map (selected items) sorted) [] k) as Hf.
      simpl in Hf. rewrite Ht in Hf. apply first_transaction_key in Hf.
      apply in_map_iff. exists t. tauto.
  - intros e He. apply in_map_iff in He. destruct He as [t [<- Ht]].
    apply first_seen_is_first in Ht.
    apply first_selected in Ht.
    destruct Ht as [pre [r [post [Hs [Ht [Hk Hpre]]]]]].
    assert (Hr : In r sorted) by (rewrite Hs; apply in_elt).
    exists r. split.
    + split; [| split].
      * now apply (at_site_log log site sorted r Hperm).
      * now apply (at_site_log log site sorted r Hperm).
      * intros r' Hr' Hsite' Hitem.
        assert (Hin' : In r' sorted) by (apply (at_site_log log site sorted r' Hperm); tauto).
        rewrite Hs in Hin'. apply in_app_or in Hin'.
        destruct Hin' as [Hin' | [<- | Hin']].
        -- rewrite Forall_forall in Hpre. apply Hpre in Hin'. congruence.
        -- lia.
        -- unfold newest_first in Hsorted. rewrite Hs in Hsorted.
           apply StronglySorted_after in Hsorted.
           rewrite Forall_forall in Hsorted. now apply Hsorted.
    + rewrite <- Ht. unfold snapshot_of, summary_of, selected. cbn.
      do 3 (split; [reflexivity |]).
      destruct (find _ items); cbn; auto.
Qed.

(** The rows two summaries take for one item have the same timestamp key. *)
Lemma most_recent_same_instant log site (r1 r2 : Row.t number) :
  most_recent instant log site r1 -> most_recent instant log site r2 ->
  Row.item_id r1 = Row.item_id r2 ->
  instant (Row.created_at r1) = instant (Row.created_at r2).
Proof.
  intros [Hin1 [Hs1 Hmax1]] [Hin2 [Hs2 Hmax2]] Hitem.
  pose proof (Hmax1 r2 Hin2 Hs2 (eq_sym Hitem)).
  pose proof (Hmax2 r1 Hin1 Hs1 Hitem).
  lia.
Qed.

(** Two summaries the specification allows agree on every stock level once
    equal timestamps of an item record equal stock. *)
Lemma site_stock_summary_agree log items site (s1 s2 : list (StockSummary.t number)) :
  is_site_stock_summary instant log items site s1 ->
  is_site_stock_summary instant log items site s2 ->
  ties_agree instant log site ->
  forall e1 e2, In e1 s1 -> In e2 s2 -> StockSummary.item_id e1 = StockSummary.item_id e2 ->
    StockSummary.current_stock e1 = StockSummary.current_stock e2.
Proof.
  intros [_ [_ H1]] [_ [_ H2]] Hties e1 e2 He1 He2 Hk.
  destruct (H1 e1 He1) as [r1 [Hm1 [Hk1 [Hc1 _]]]].
  destruct (H2 e2 He2) as [r2 [Hm2 [Hk2 [Hc2 _]]]].
  assert (Hitem : Row.item_id r1 = Row.item_id r2) by congruence.
  pose proof (most_recent_same_instant log site r1 r2 Hm1 Hm2 Hitem) as Hinst.
  destruct Hm1 as [Hin1 [Hs1 _]]. destruct Hm2 as [Hin2 [Hs2 _]].
  rewrite Hc1, Hc2. now apply Hties.
Qed.

(** When moreover the store writes a point in time in one way, the entries
    of one item in two such summaries are the same record. *)
Lemma site_stock_summary_entry_unique log items site (s1 s2 : list (StockSummary.t number)) :
  is_site_stock_summary instant log items site s1 ->
  is_site_stock_summary instant log items site s2 ->
  ties_agree instant log site ->
  timestamps_canonical instant log ->
  forall e1 e2, In e1 s1 -> In e2 s2 -> StockSummary.item_id e1 = StockSummary.item_id e2 ->
    e1 = e2.
Proof.
  intros [_ [_ H1]] [_ [_ H2]] Hties Hcanon e1 e2 He1 He2 Hk.
  destruct (H1 e1 He1) as [r1 [Hm1 [Hk1 [Hc1 [Hu1 Hj1]]]]].
  destruct (H2 e2 He2) as [r2 [Hm2 [Hk2 [Hc2 [Hu2 Hj2]]]]].
  assert (Hitem : Row.item_id r1 = Row.item_id r2) by congruence.
  pose proof (most_recent_same_instant log site r1 r2 Hm1 Hm2 Hitem) as Hinst.
  destruct Hm1 as [Hin1 [Hs1 _]]. destruct Hm2 as [Hin2 [Hs2 _]].
  pose proof (Hties r1 r2 Hin1 Hin2 Hs1 Hs2 Hitem Hinst) as Hstock.
  pose proof (Hcanon r1 r2 Hin1 Hin2 Hinst) as Hstamp.
  rewrite Hitem in Hj1.
  destruct e1 as [k1 c1 n1 g1 u1 l1], e2 as [k2 c2 n2 g2 u2 l2]. cbn in *.
  destruct (find (fun i => String.eqb (Joined.id i) (Row.item_id r2)) items);
    destruct Hj1 as [-> [-> ->]]; destruct Hj2 as [-> [-> ->]]; congruence.
Qed.

(** Hence the two summaries have the same entries. *)
Lemma site_stock_summary_unique log items site (s1 s2 : list (StockSummary.t number)) :
  is_site_stock_summary instant log items site s1 ->
  is_site_stock_summary instant log items site s2 ->
  ties_agree instant log site ->
  timestamps_canonical instant log ->
  forall e, In e s1 <-> In e s2.
Proof.
  intros H1 H2 Hties Hcanon e.
  pose proof (site_stock_summary_entry_unique log items site s1 s2 H1 H2 Hties Hcanon) as Huniq.
  destruct H1 as [_ [Hk1 _]]. destruct H2 as [_ [Hk2 _]].
  split; intros He.
  - assert (Hin : In (StockSummary.item_id e) (map StockSummary.item_id s2)).
    { apply Hk2. apply Hk1. now apply in_map. }
    apply in_map_iff in Hin. destruct Hin as [e' [Hid He']].
    now rewrite (Huniq e e' He He' (eq_sym Hid)).
  - assert (Hin : In (StockSummary.item_id e) (map StockSummary.item_id s1)).
    { apply Hk1. apply Hk2. now apply in_map. }
    apply in_map_iff in Hin. destruct Hin as [e' [Hid He']].
    now rewrite <- (Huniq e' e He' He Hid).
Qed.

End LogFacts.

(** Claim C1.  The fallback scan of the site-stock-summary query, run on any
    list of transactions in any heap, returns a list [out] with exactly one
    entry per distinct [item_id] of the input: the item ids of [out] are
    pairwise distinct and are those of the input, and for every item the
    single entry of [out] with that id carries the [new_stock] of the first
    transaction of the item in input order as [current_stock] and its
    [created_at] as [last_updated]; its name, category and unit are those
    of the record joined to that transaction, and are undefined when the
    transaction has no joined record.  The empty input (and a null one)
    gives the empty list. *)
Theorem stock_summary_one_entry_per_item :
  forall (number E : Type) (h : Heap.t (StockSummary.t number)),
    (exists h', stockMapScan (E := E) (Some []) h = (Ok [], h')) /\
    (exists h', stockMapScan (E := E) None h = (Ok [], h')) /\
    forall transactions : list (Transaction number),
    exists out h',
      stockMapScan (E := E) (Some transactions) h = (Ok out, h') /\
      NoDup (map StockSummary.item_id out) /\
      (forall k, In k (map StockSummary.item_id out) <-> In k (map item_id transactions)) /\
      (forall k t, first_transaction k transactions = Some t ->
         exists e,
           In e out /\ StockSummary.item_id e = k /\
           StockSummary.current_stock e = new_stock t /\
           StockSummary.last_updated e = created_at t /\
           match inventory_items t with
           | Some joined =>
               StockSummary.item_name e = Some (Joined.name joined) /\
               StockSummary.item_category e = Some (Joined.category joined) /\
               StockSummary.item_unit e = Some (Joined.unit joined)
           | None =>
               StockSummary.item_name e = None /\
               StockSummary.item_category e = None /\
               StockSummary.item_unit e = None
           end /\
           (forall e', In e' out -> StockSummary.item_id e' = k -> e' = e)).
Proof.
  intros number E h. split; [| split].
  - eexists. rewrite stockMapScan_rows. reflexivity.
  - eexists. apply stockMapScan_null.
  - intros transactions.
    exists (map summary_of (first_seen [] transactions)).
    eexists. split; [apply stockMapScan_rows |].
    rewrite summary_keys. split; [apply first_seen_NoDup |]. split.
    + intros k. split; intros Hin.
      * apply in_map_iff in Hin. destruct Hin as [t [Hk Ht]].
        apply first_seen_In in Ht. apply in_map_iff. exists t. tauto.
      * apply first_transaction_Some in Hin. destruct Hin as [t Ht].
        pose proof (first_transaction_first_seen transactions [] k) as Hf.
        simpl in Hf. rewrite Ht in Hf. apply first_transaction_key in Hf.
        destruct Hf as [Hk Hin]. apply in_map_iff. now exists t.
    + intros k t Ht.
      pose proof (first_transaction_first_seen transactions [] k) as Hf.
      simpl in Hf. rewrite Ht in Hf.
      pose proof (first_transaction_key _ _ _ Hf) as [Hk Hin].
      exists (summary_of t).
      split; [now apply in_map |]. split; [exact Hk |].
      split; [reflexivity |]. split; [reflexivity |]. split.
      * cbn. destruct (inventory_items t); cbn; auto.
      * intros e' He' Hk'. apply in_map_iff in He'. destruct He' as [t' [<- Ht']].
        simpl in Hk'.
        pose proof (NoDup_first_transaction _ t' (first_seen_NoDup transactions []) Ht') as Hf'.
        rewrite Hk', Hf in Hf'. congruence.
Qed.

(** Claim C3.  The output of the scan lists the items in first-seen order.
    No item has two entries in the output; and when the first transaction
    of item [a] stands at position [ia] of the input and that of item [b]
    at position [ib], the entries of [a] and [b], the only ones of these
    items, stand in the output at positions [ja] and [jb] with [ja < jb]
    exactly when [ia < ib]. *)
Theorem stock_summary_first_seen_order :
  forall (number E : Type) (transactions : list (Transaction number))
         (h : Heap.t (StockSummary.t number)) (a b : string) (ia ib : nat),
    index_of a (map item_id transactions) = Some ia ->
    index_of b (map item_id transactions) = Some ib ->
    exists out h' ja jb,
      stockMapScan (E := E) (Some transactions) h = (Ok out, h') /\
      NoDup (map StockSummary.item_id out) /\
      index_of a (map StockSummary.item_id out) = Some ja /\
      index_of b (map StockSummary.item_id out) = Some jb /\
      (forall j, nth_error (map StockSummary.item_id out) j = Some a <-> j = ja) /\
      (forall j, nth_error (map StockSummary.item_id out) j = Some b <-> j = jb) /\
      (ja < jb <-> ia < ib).
Proof.
  intros number E transactions h a b ia ib Hia Hib.
  destruct (index_of_first_seen transactions [] a b ia ib eq_refl eq_refl Hia Hib)
    as [ja [jb [Hja [Hjb Hlt]]]].
  exists (map summary_of (first_seen [] transactions)).
  eexists. exists ja, jb.
  split; [apply stockMapScan_rows |].
  rewrite summary_keys.
  pose proof (first_seen_NoDup transactions []) as Hnd.
  split; [exact Hnd |]. split; [exact Hja |]. split; [exact Hjb |].
  split; [| split; [| exact Hlt]].
  - intros j. now apply index_of_only.
  - intros j. now apply index_of_only.
Qed.

(** The order theorem on the specification's example: A before B. *)
Lemma stock_summary_first_seen_order_witness :
  index_of "A" (map item_id Sample.transactions) = Some 0 /\
  index_of "B" (map item_id Sample.transactions) = Some 1 /\
  exists out h' ja jb,
    stockMapScan (E := PostgrestError) (Some Sample.transactions) [] = (Ok out, h') /\
    NoDup (map StockSummary.item_id out) /\
    index_of "A" (map StockSummary.item_id out) = Some ja /\
    index_of "B" (map StockSummary.item_id out) = Some jb /\
    (forall j, nth_error (map StockSummary.item_id out) j = Some "A" <-> j = ja) /\
    (forall j, nth_error (map StockSummary.item_id out) j = Some "B" <-> j = jb) /\
    (ja < jb <-> 0 < 1).
Proof.
  split; [reflexivity | split; [reflexivity |]].
  apply (stock_summary_first_seen_order Z PostgrestError Sample.transactions [] "A" "B" 0 1);
    reflexivity.
Defined.

(** The specification's example: the older row of A is ignored. *)
Example stock_summary_spec_example :
  fst (stockMapScan (E := PostgrestError) (Some Sample.transactions) [])
  = Ok [ {| StockSummary.item_id := "A";
            StockSummary.current_stock := 5%Z;
            StockSummary.item_name := Some "Cement";
            StockSummary.item_category := Some (Some "Binding");
            StockSummary.item_unit := Some "bag";
            StockSummary.last_updated := Some "2024-05-02" |};
         {| StockSummary.item_id := "B";
            StockSummary.current_stock := 9%Z;
            StockSummary.item_name := Some "Sand";
            StockSummary.item_category := Some None;
            StockSummary.item_unit := Some "ton";
            StockSummary.last_updated := Some "2024-05-02" |} ].
Proof.
  reflexivity.
Qed.

(** Claim C9.  The scan is deterministic and can be repeated: its result does
    not depend on the heap it starts from, and a second run on the same
    input, in the heap the first run left behind, returns the very same
    list (same entries, same values, same order). *)
Theorem stock_summary_rerun_identical :
  forall (number E : Type) (transactions : Nullable (list (Transaction number)))
         (h : Heap.t (StockSummary.t number)),
    (forall h0 : Heap.t (StockSummary.t number),
        fst (stockMapScan (E := E) transactions h0)
        = fst (stockMapScan (E := E) transactions h)) /\
    exists out h1 h2,
      stockMapScan (E := E) transactions h = (Ok out, h1) /\
      stockMapScan (E := E) transactions h1 = (Ok out, h2).
Proof.
  intros number E [rows |] h.
  - split.
    + intros h0. now rewrite !stockMapScan_rows.
    + do 3 eexists. split; apply stockMapScan_rows.
  - split.
    + intros h0. now rewrite !stockMapScan_null.
    + do 3 eexists. split; apply stockMapScan_null.
Qed.

(** Claim C2.  With no site selected the query answers the empty list and
    sends nothing.  For a selected site it first calls the server-side
    aggregation [get_site_stock_summary].  When that call succeeds this is
    the only request, no scan is run, and the query answers the very rows
    the call returned, the empty list when it returned null.  Only when
    the call returns an error is [inventory_transactions] read and scanned;
    an error of that read is thrown.  Whenever the rows read are the
    store's answer over a transaction log (the site's rows, newest first,
    joined to the table of items), the list the scan returns is a summary
    the server procedure is specified to compute over that log and table:
    one entry per item of the site, holding the id, stock, timestamp and
    joined name, category and unit of a most recent transaction of the
    item.  It agrees on every stock level with any other such summary as
    soon as equal timestamps of an item record equal stock, and has
    exactly the same entries when moreover the store writes a point in
    time in one way. *)
Theorem site_stock_summary_query_fallback :
  forall (number : Type) (instant : Nullable string -> Z)
         (supabase : Supabase number) (selectedSite : string) (w : QueryWorld number),
    (selectedSite = "" ->
       siteStockSummary_queryFn supabase selectedSite w = (Ok [], w)) /\
    (selectedSite <> "" ->
       (error (rpc_get_site_stock_summary supabase selectedSite) = None ->
          siteStockSummary_queryFn supabase selectedSite w
          = (Ok match data (rpc_get_site_stock_summary supabase selectedSite) with
                | Some rows => rows
                | None => []
                end,
             {| requests := requests w ++ [Rpc "get_site_stock_summary" selectedSite];
                heap := heap w |})) /\
       (forall e, error (rpc_get_site_stock_summary supabase selectedSite) = Some e ->
          exists result w',
            siteStockSummary_queryFn supabase selectedSite w = (result, w') /\
            requests w' = requests w ++
              [Rpc "get_site_stock_summary" selectedSite;
               SelectTransactions "inventory_transactions" selectedSite "created_at"] /\
            (forall transError,
               error (select_transactions supabase selectedSite) = Some transError ->
               result = Throw transError) /\
            (error (select_transactions supabase selectedSite) = None ->
               exists out,
                 result = Ok out /\
                 fst (stockMapScan (E := PostgrestError)
                        (data (select_transactions supabase selectedSite)) (heap w)) = Ok out /\
                 forall log items rows,
                   data (select_transactions supabase selectedSite) = Some rows ->
                   answers_fallback_query instant log items selectedSite rows ->
                   is_site_stock_summary instant log items selectedSite out /\
                   forall served,
                     is_site_stock_summary instant log items selectedSite served ->
                     ties_agree instant log selectedSite ->
                     (forall e1 e2, In e1 out -> In e2 served ->
                        StockSummary.item_id e1 = StockSummary.item_id e2 ->
                        StockSummary.current_stock e1 = StockSummary.current_stock e2) /\
                     (timestamps_canonical instant log ->
                        forall entry, In entry out <-> In entry served)))).
Proof.
  intros number instant supabase selectedSite w. split.
  - intros ->. reflexivity.
  - intros Hsite. unfold siteStockSummary_queryFn.
    rewrite (truthy_nonempty _ Hsite). simpl. split.
    + intros Hok. unfold bind, send, modify. rewrite Hok.
      now destruct (data (rpc_get_site_stock_summary supabase selectedSite)).
    + intros e He. unfold bind at 1. unfold send at 1, modify. rewrite He.
      unfold bind, send, modify.
      destruct (error (select_transactions supabase selectedSite)) as [transError |] eqn:Hfb.
      * do 2 eexists. split; [reflexivity |]. simpl. rewrite <- app_assoc.
        split; [reflexivity |]. split; [| discriminate].
        intros te Hte. congruence.
      * unfold onHeap. simpl.
        destruct (data (select_transactions supabase selectedSite)) as [rows |] eqn:Hrows.
        -- rewrite stockMapScan_rows. do 2 eexists. split; [reflexivity |].
           simpl. rewrite <- app_assoc. split; [reflexivity |].
           split; [discriminate |]. intros _.
           eexists. split; [reflexivity |]. split; [reflexivity |].
           intros log items rows' Hrows' Hans. injection Hrows' as <-.
           pose proof (fallback_is_site_stock_summary instant log items selectedSite rows Hans)
             as Hsum.
           split; [exact Hsum |].
           intros served Hserved Hties. split.
           ++ exact (site_stock_summary_agree instant log items selectedSite _ _
                       Hsum Hserved Hties).
           ++ intros Hcanon.
              exact (site_stock_summary_unique instant log items selectedSite _ _
                       Hsum Hserved Hties Hcanon).
        -- rewrite stockMapScan_null. do 2 eexists. split; [reflexivity |].
           simpl. rewrite <- app_assoc. split; [reflexivity |].
           split; [discriminate |]. intros _.
           eexists. split; [reflexivity |]. split; [reflexivity |].
           intros log items rows' Hrows'. discriminate.
Qed.

(** The query on the two sample stores over the sample log.  The store
    that has the procedure is asked once and its rows are the answer.  On
    the store that lacks it the rows of site [s1] are the store's answer
    over the log, and the list the query returns is a stock summary of
    that log with the same entries as the one the other store serves. *)
Lemma site_stock_summary_query_fallback_witness :
  "s1" <> "" /\
  siteStockSummary_queryFn Sample.serving "s1" Sample.start
  = (Ok Sample.served,
     {| requests := [Rpc "get_site_stock_summary" "s1"]; heap := [] |}) /\
  answers_fallback_query Sample.instant Sample.log Sample.items "s1" Sample.transactions /\
  is_site_stock_summary Sample.instant Sample.log Sample.items "s1" Sample.served /\
  exists out,
    fst (siteStockSummary_queryFn Sample.supabase "s1" Sample.start) = Ok out /\
    is_site_stock_summary Sample.instant Sample.log Sample.items "s1" out /\
    forall entry, In entry out <-> In entry Sample.served.
Proof.
  split; [discriminate |].
  split.
  { destruct (site_stock_summary_query_fallback Z Sample.instant Sample.serving "s1"
                Sample.start) as [_ Hsite].
    destruct (Hsite ltac:(discriminate)) as [Hok _].
    exact (Hok eq_refl). }
  assert (Hans : answers_fallback_query Sample.instant Sample.log Sample.items "s1"
                   Sample.transactions).
  { exists (filter (at_site "s1") Sample.log).
    split; [apply Permutation_refl |]. split; [| reflexivity].
    unfold newest_first. simpl.
    repeat (constructor; [| repeat constructor; simpl; lia]). constructor. }
  split; [exact Hans |].
  assert (Hserved : is_site_stock_summary Sample.instant Sample.log Sample.items "s1"
                      Sample.served).
  { split; [| split].
    - repeat constructor; simpl; intuition discriminate.
    - intros k. simpl. split.
      + intros [<- | [<- | []]];
          [exists (Sample.row "r3" "B" 0 9 "2024-05-02" "s1")
          | exists (Sample.row "r4" "A" 3 5 "2024-05-02" "s1")];
          simpl; auto.
      + intros [r [Hr [Hat <-]]].
        destruct Hr as [<- | [<- | [<- | [<- | []]]]]; cbn; auto.
    - intros entry [<- | [<- | []]];
        [exists (Sample.row "r3" "B" 0 9 "2024-05-02" "s1")
        | exists (Sample.row "r4" "A" 3 5 "2024-05-02" "s1")];
        (split; [split; [simpl; auto | split; [reflexivity |]]
                | repeat split]);
        intros r' Hr' Hat Hitem;
        destruct Hr' as [<- | [<- | [<- | [<- | []]]]];
        cbn in Hat, Hitem |- *; try discriminate; lia. }
  split; [exact Hserved |].
  destruct (site_stock_summary_query_fallback Z Sample.instant Sample.supabase "s1" Sample.start)
    as [_ Hsite].
  destruct (Hsite ltac:(discriminate)) as [_ Herr].
  destruct (Herr _ eq_refl) as [result [w' [Hrun [_ [_ Hok]]]]].
  destruct (Hok eq_refl) as [out [Hresult [_ Hspec]]].
  destruct (Hspec Sample.log Sample.items Sample.transactions eq_refl Hans) as [Hsum Hagree].
  exists out. split; [| split].
  - rewrite Hrun. exact Hresult.
  - exact Hsum.
  - apply (Hagree Sample.served Hserved).
    + intros r r' Hr Hr' Hat Hat' Hitem Hinst.
      destruct Hr as [<- | [<- | [<- | [<- | []]]]];
        destruct Hr' as [<- | [<- | [<- | [<- | []]]]];
        cbn in Hat, Hat', Hitem, Hinst |- *; try reflexivity; try discriminate; lia.
    + intros r r' Hr Hr' Hinst.
      destruct Hr as [<- | [<- | [<- | [<- | []]]]];
        destruct Hr' as [<- | [<- | [<- | [<- | []]]]];
        cbn in Hinst |- *; try reflexivity; try discriminate; lia.
Defined.

End InventoryFacts.

(** ** The search filters *)

Section SearchFacts.
Variable toLowerCase : string -> string.

Lemma field_matches_spec (field : Nullable string) (searchTerm : string) :
  Inventory.field_matches toLowerCase field searchTerm = true <->
  exists text, field = Some text /\ Inventory.contains_ci toLowerCase text searchTerm.
Proof.
  unfold Inventory.field_matches, Inventory.contains_ci.
  destruct field as [text |].
  - rewrite includes_spec. split.
    + intros H. now exists text.
    + intros [text' [Heq H]]. now injection Heq as ->.
  - split; [discriminate | intros [text [Heq _]]; discriminate].
Qed.

(** A row passes a two-field filter exactly when one of its two fields
    contains the term. *)
Lemma two_fields_spec (name : string) (other : Nullable string) (searchTerm : string) :
  Inventory.field_matches toLowerCase (Some name) searchTerm
  || Inventory.field_matches toLowerCase other searchTerm = true <->
  Inventory.contains_ci toLowerCase name searchTerm \/
  exists text, other = Some text /\ Inventory.contains_ci toLowerCase text searchTerm.
Proof.
  rewrite orb_true_iff, !field_matches_spec. split.
  - intros [[text [Heq H]] | H]; [left; now injection Heq as -> | now right].
  - intros [H | H]; [left; now exists name | now right].
Qed.

End SearchFacts.

(** *** Character-wise lower-casing

    When [toLowerCase] works character by character, containment after
    lower-casing both sides is containment of a run of the text that
    equals the term up to case. *)

Lemma charwise_app (lower : ascii -> ascii) (a b : string) :
  charwise lower (a ++ b) = (charwise lower a ++ charwise lower b)%string.
Proof.
  induction a as [| c a IH]; simpl; [reflexivity | now rewrite IH].
Qed.

Lemma charwise_split (lower : ascii -> ascii) (a : string) : forall s b,
  charwise lower s = (a ++ b)%string ->
  exists s1 s2, s = (s1 ++ s2)%string /\ charwise lower s1 = a /\ charwise lower s2 = b.
Proof.
  induction a as [| c a IH]; simpl; intros s b H.
  - exists "", s. auto.
  - destruct s as [| d s]; simpl in H; [discriminate |].
    injection H as Hc H. apply IH in H. destruct H as [s1 [s2 [-> [H1 H2]]]].
    exists (String d s1), s2. simpl. rewrite Hc, H1. auto.
Qed.

Lemma contains_ci_charwise (lower : ascii -> ascii) (text term : string) :
  Inventory.contains_ci (charwise lower) text term <->
  exists pre mid post,
    text = (pre ++ mid ++ post)%string /\ charwise lower mid = charwise lower term.
Proof.
  unfold Inventory.contains_ci, occurs_in. split.
  - intros [p [q H]].
    apply charwise_split in H. destruct H as [pre [rest [-> [_ H]]]].
    apply charwise_split in H. destruct H as [mid [post [-> [Hmid _]]]].
    now exists pre, mid, post.
  - intros [pre [mid [post [-> Hmid]]]].
    exists (charwise lower pre), (charwise lower post).
    now rewrite !charwise_app, Hmid.
Qed.

(** The item filter on an ASCII example: the term [CEM] keeps the item
    named [Cement] and drops the one named [Sand]. *)
Example filteredItems_example :
  map Inventory.Item.name
      (Inventory.filteredItems (charwise lowerAscii) (Some Sample.inventory) "CEM")
  = ["Cement"].
Proof.
  reflexivity.
Qed.

(** Claim C4.  The page filters are sound and complete for case-insensitive
    substring match.  For the inventory items and for the sites, whatever
    the rows and the search term: a row of the filtered list is a row of
    the input in which the name, or the category (for a site: the
    location) when it is not null, contains the term case-insensitively;
    and a row of the input that is not in the filtered list contains the
    term in neither field. *)
Theorem search_filter_sound_and_complete :
  forall (toLowerCase : string -> string) (searchTerm : string),
    (forall (inventoryItems : list Inventory.Item.t) (item : Inventory.Item.t),
       (In item (Inventory.filteredItems toLowerCase (Some inventoryItems) searchTerm) ->
          In item inventoryItems /\
          (Inventory.contains_ci toLowerCase (Inventory.Item.name item) searchTerm \/
           exists text, Inventory.Item.category item = Some text /\
                        Inventory.contains_ci toLowerCase text searchTerm)) /\
       (In item inventoryItems ->
        ~ In item (Inventory.filteredItems toLowerCase (Some inventoryItems) searchTerm) ->
          ~ Inventory.contains_ci toLowerCase (Inventory.Item.name item) searchTerm /\
          forall text, Inventory.Item.category item = Some text ->
                       ~ Inventory.contains_ci toLowerCase text searchTerm)) /\
    (forall (sites : list Sites.Site.t) (site : Sites.Site.t),
       (In site (Sites.filteredSites toLowerCase (Some sites) searchTerm) ->
          In site sites /\
          (Inventory.contains_ci toLowerCase (Sites.Site.name site) searchTerm \/
           exists text, Sites.Site.location site = Some text /\
                        Inventory.contains_ci toLowerCase text searchTerm)) /\
       (In site sites ->
        ~ In site (Sites.filteredSites toLowerCase (Some sites) searchTerm) ->
          ~ Inventory.contains_ci toLowerCase (Sites.Site.name site) searchTerm /\
          forall text, Sites.Site.location site = Some text ->
                       ~ Inventory.contains_ci toLowerCase text searchTerm)).
Proof.
  intros toLowerCase searchTerm. split.
  - intros inventoryItems item. unfold Inventory.filteredItems. split.
    + intros Hin. apply filter_In in Hin. destruct Hin as [Hin Hm].
      apply two_fields_spec in Hm. tauto.
    + intros Hin Hout. rewrite filter_In in Hout.
      rewrite two_fields_spec in Hout. split.
      * intros H. apply Hout. tauto.
      * intros text Hc H. apply Hout. split; [exact Hin |]. right. now exists text.
  - intros sites site. unfold Sites.filteredSites. split.
    + intros Hin. apply filter_In in Hin. destruct Hin as [Hin Hm].
      apply two_fields_spec in Hm. tauto.
    + intros Hin Hout. rewrite filter_In in Hout.
      rewrite two_fields_spec in Hout. split.
      * intros H. apply Hout. tauto.
      * intros text Hc H. apply Hout. split; [exact Hin |]. right. now exists text.
Qed.

(** ** The authentication guard and the routes *)

Section RouterFacts.
Import App.
Variable matchPath : string -> string -> bool.





End RouterFacts.

(** *** The router the page uses *)





(** Each of the nine paths shows its own page. *)
Example page_paths_show_their_pages :
  map (App.ProtectedApp App.ReactRouter.matchRoute Sample.signed_in)
      [ "/"; "/users"; "/sites"; "/activities"; "/material-requests"; "/bookings";
        "/message-logs"; "/sessions"; "/employee-otps" ]
  = [ App.Shell (Some App.Dashboard); App.Shell (Some App.Users);
      App.Shell (Some App.Sites); App.Shell (Some App.Activities);
      App.Shell (Some App.MaterialRequests); App.Shell (Some App.Bookings);
      App.Shell (Some App.MessageLogs); App.Shell (Some App.Sessions);
      App.Shell (Some App.EmployeeOTPs) ].
Proof. reflexivity. Qed.



(** ** The sign-in handlers *)

Module AuthFacts.
Import Auth.

Lemma filter_app_none {A : Type} (f : A -> bool) (l extra : list A) :
  forallb (fun x => negb (f x)) extra = true ->
  filter f (l ++ extra) = filter f l.
Proof.
  intros H. rewrite filter_app.
  replace (filter f extra) with (@nil A); [now rewrite app_nil_r |].
  induction extra as [| x extra IH]; [reflexivity |].
  simpl in *. apply andb_true_iff in H. destruct H as [Hx H].
  destruct (f x); [discriminate | now apply IH].
Qed.

(** Claim C6.  Submitting the sign-in form with an empty email address is
    rejected in the handler: it returns having shown one error
    notification and nothing else, no request has been sent to the
    authentication service ([signInWithOtp] is not called), and the page
    state, hence the step of the flow, and the session are unchanged. *)
Theorem empty_email_rejected_before_request :
  forall (auth : UseAuth) (w : World),
    email (page w) = "" ->
    exists w',
      handleEmailSubmit auth w = (Ok tt, w') /\
      effects w' = effects w ++
        [ PreventDefault;
          ShowToast {| title := "Error";
                       description := "Please enter your email address";
                       variant := Some "destructive" |} ] /\
      filter is_request (effects w') = filter is_request (effects w) /\
      page w' = page w /\
      session w' = session w.
Proof.
  intros auth w Hempty.
  eexists. split.
  - unfold handleEmailSubmit, effect. run_eff.
    rewrite Hempty. reflexivity.
  - simpl. rewrite <- app_assoc. simpl. repeat split.
    now apply filter_app_none.
Qed.

(** The blank form submitted. *)
Lemma empty_email_rejected_before_request_witness :
  email (page Sample.blank_form) = "" /\
  exists w',
    handleEmailSubmit Sample.refusing Sample.blank_form = (Ok tt, w') /\
    effects w' = effects Sample.blank_form ++
      [ PreventDefault;
        ShowToast {| title := "Error";
                     description := "Please enter your email address";
                     variant := Some "destructive" |} ] /\
    filter is_request (effects w') = filter is_request (effects Sample.blank_form) /\
    page w' = page Sample.blank_form /\
    session w' = session Sample.blank_form.
Proof.
  split; [reflexivity |].
  apply (empty_email_rejected_before_request Sample.refusing Sample.blank_form).
  reflexivity.
Defined.

(** Claim C7.  When a verification code is submitted and [verifyOtp]
    returns an error, the handler sends that one request and shows one
    error notification; it does not navigate, the session is the one from
    before the call, so an unauthenticated session stays unauthenticated,
    and the page stays on its step with [loading] reset.  Hence the whole
    flow of an address for which the service sends a code, followed by a
    code it refuses, ends unauthenticated, with nothing navigated to and
    the page waiting on the code step. *)
Theorem failed_verification_stays_signed_out :
  forall auth : UseAuth,
    (forall (w : World) (err : AuthError),
       otp (page w) <> "" ->
       verifyOtp auth (email (page w)) (otp (page w)) = Some err ->
       exists w',
         handleOtpSubmit auth w = (Ok tt, w') /\
         effects w' = effects w ++
           [ PreventDefault;
             VerifyCode (email (page w)) (otp (page w));
             ShowToast {| title := "Error";
                          description := or_else (message err) "Invalid verification code";
                          variant := Some "destructive" |} ] /\
         filter is_navigation (effects w') = filter is_navigation (effects w) /\
         session w' = session w /\
         (session w = None -> session w' = None) /\
         page w' = {| email := email (page w); otp := otp (page w);
                      step := step (page w); loading := false |}) /\
    (forall (w : World) (code : string) (err : AuthError),
       session w = None ->
       email (page w) <> "" ->
       signInWithOtp auth (email (page w)) = None ->
       code <> "" ->
       verifyOtp auth (email (page w)) code = Some err ->
       exists w',
         (handleEmailSubmit auth ;; setOtp code ;; handleOtpSubmit auth) w = (Ok tt, w') /\
         session w' = None /\
         filter is_navigation (effects w') = filter is_navigation (effects w) /\
         step (page w') = OtpStep).
Proof.
  intros auth. split.
  - intros w err Hcode Herr.
    eexists. split.
    + unfold handleOtpSubmit, await_verifyOtp, effect, setLoading. run_eff.
      rewrite (truthy_nonempty _ Hcode). cbn.
      rewrite Herr. reflexivity.
    + simpl. rewrite <- !app_assoc. simpl. repeat split; auto.
      now apply filter_app_none.
  - intros w code err Hout Haddress Hsent Hcode Hrefused.
    eexists. split.
    + unfold handleEmailSubmit, handleOtpSubmit, await_signInWithOtp, await_verifyOtp,
        effect, setLoading, setStep, setOtp. run_eff.
      rewrite (truthy_nonempty _ Haddress). cbn. rewrite Hsent. cbn.
      rewrite (truthy_nonempty _ Hcode). cbn. rewrite Hrefused. reflexivity.
    + cbn. rewrite <- !app_assoc. cbn. repeat split; auto.
      now apply filter_app_none.
Qed.

(** A code refused by the service, on the code step and after the address
    step. *)
Lemma failed_verification_stays_signed_out_witness :
  (otp (page Sample.code_entered) <> "" /\
   verifyOtp Sample.refusing (email (page Sample.code_entered))
     (otp (page Sample.code_entered))
   = Some {| message := "Token has expired or is invalid" |} /\
   exists w',
     handleOtpSubmit Sample.refusing Sample.code_entered = (Ok tt, w') /\
     filter is_navigation (effects w') = [] /\
     session w' = None) /\
  (session Sample.address_entered = None /\
   email (page Sample.address_entered) <> "" /\
   signInWithOtp Sample.refusing (email (page Sample.address_entered)) = None /\
   exists w',
     (handleEmailSubmit Sample.refusing ;; setOtp "123456" ;;
      handleOtpSubmit Sample.refusing) Sample.address_entered = (Ok tt, w') /\
     session w' = None /\
     filter is_navigation (effects w') = [] /\
     step (page w') = OtpStep).
Proof.
  destruct (failed_verification_stays_signed_out Sample.refusing) as [Hhandler Hflow].
  split.
  - split; [discriminate | split; [reflexivity |]].
    destruct (Hhandler Sample.code_entered _ ltac:(discriminate) eq_refl)
      as [w' [Hrun [_ [Hnav [Hsession _]]]]].
    exists w'. auto.
  - split; [reflexivity | split; [discriminate | split; [reflexivity |]]].
    destruct (Hflow Sample.address_entered "123456" _ eq_refl
                ltac:(discriminate) eq_refl ltac:(discriminate) eq_refl)
      as [w' [Hrun [Hsession [Hnav Hstep]]]].
    exists w'. auto.
Defined.

End AuthFacts.

(** ** The item mutations *)

Module MutationFacts.
Import Inventory.

(** Claim C8.  Each of the three item mutations sends its write once.  When the
    store answers with an error, the only other effect is the error
    notification: the query cache is left as it was (nothing is
    invalidated), the dialogs and the form are untouched, the write is not
    sent again, and [mutate] returns normally.  The cache is invalidated
    and the success notification shown only when the store reports no
    error. *)
Theorem failed_mutation_only_notifies :
  forall (Data : Type) (store : Write -> Nullable PostgrestError) (w : Page Data),
    (forall itemData : Form.t,
       mutate (createItemMutation store) itemData w =
       (Ok tt,
        match store (Insert "inventory_items" itemData) with
        | Some _ =>
            {| cache := cache w;
               toasts := toasts w ++ [failure "Failed to create inventory item"];
               sent := sent w ++ [Insert "inventory_items" itemData];
               isAddDialogOpen := isAddDialogOpen w;
               isEditDialogOpen := isEditDialogOpen w;
               editingItem := editingItem w;
               form := form w;
               formDefaults := formDefaults w |}
        | None =>
            {| cache := invalidateQueries ["inventory-items"] (cache w);
               toasts := toasts w ++ [success "Inventory item created successfully"];
               sent := sent w ++ [Insert "inventory_items" itemData];
               isAddDialogOpen := false;
               isEditDialogOpen := isEditDialogOpen w;
               editingItem := editingItem w;
               form := formDefaults w;
               formDefaults := formDefaults w |}
        end)) /\
    (forall (id : string) (itemData : Form.t),
       mutate (updateItemMutation store) (id, itemData) w =
       (Ok tt,
        match store (Update "inventory_items" itemData id) with
        | Some _ =>
            {| cache := cache w;
               toasts := toasts w ++ [failure "Failed to update inventory item"];
               sent := sent w ++ [Update "inventory_items" itemData id];
               isAddDialogOpen := isAddDialogOpen w;
               isEditDialogOpen := isEditDialogOpen w;
               editingItem := editingItem w;
               form := form w;
               formDefaults := formDefaults w |}
        | None =>
            {| cache := invalidateQueries ["inventory-items"] (cache w);
               toasts := toasts w ++ [success "Inventory item updated successfully"];
               sent := sent w ++ [Update "inventory_items" itemData id];
               isAddDialogOpen := isAddDialogOpen w;
               isEditDialogOpen := false;
               editingItem := None;
               form := formDefaults w;
               formDefaults := formDefaults w |}
        end)) /\
    (forall itemId : string,
       mutate (deleteItemMutation store) itemId w =
       (Ok tt,
        match store (Delete "inventory_items" itemId) with
        | Some _ =>
            {| cache := cache w;
               toasts := toasts w ++ [failure "Failed to delete inventory item"];
               sent := sent w ++ [Delete "inventory_items" itemId];
               isAddDialogOpen := isAddDialogOpen w;
               isEditDialogOpen := isEditDialogOpen w;
               editingItem := editingItem w;
               form := form w;
               formDefaults := formDefaults w |}
        | None =>
            {| cache := invalidateQueries ["inventory-items"] (cache w);
               toasts := toasts w ++ [success "Inventory item deleted successfully"];
               sent := sent w ++ [Delete "inventory_items" itemId];
               isAddDialogOpen := isAddDialogOpen w;
               isEditDialogOpen := isEditDialogOpen w;
               editingItem := editingItem w;
               form := form w;
               formDefaults := formDefaults w |}
        end)).
Proof.
  intros Data store w. repeat split; intros;
    unfold mutate, attempt; cbn -[invalidateQueries];
    unfold write, bind, modify; cbn -[invalidateQueries];
    match goal with
    | |- context [store ?r] => destruct (store r)
    end; reflexivity.
Qed.

End MutationFacts.

(** ** Timestamps on the Activities page *)

Module ActivitiesFacts.
Import Activities.

Lemma istOffset_ms : istOffset = 19800000%Z.
Proof.
  reflexivity.
Qed.

Lemma TimeClip_in_range (t : Z) :
  (- maxTime <= t <= maxTime)%Z -> TimeClip (Some t) = Some t.
Proof.
  intros H. unfold TimeClip.
  destruct (Z.leb_spec (Z.abs t) maxTime) as [_ | Hout]; [reflexivity | lia].
Qed.

Lemma TimeClip_out_of_range (t : Z) :
  (maxTime < Z.abs t)%Z -> TimeClip (Some t) = None.
Proof.
  intros H. unfold TimeClip.
  destruct (Z.leb_spec (Z.abs t) maxTime) as [Hin | _]; [lia | reflexivity].
Qed.

(** Claim C10.  [formatDateTime] parses the timestamp string itself when it
    contains a ['Z'] and the string with ['Z'] appended when it contains
    none.  To the instant parsed it adds 5 h 30 min, that is 19 800 000
    ms, and hands the shifted instant to the locale formatter with the
    locale [en-IN] and no [timeZone] option: the offset is applied to the
    instant, on top of the zone the formatter itself applies.  A string
    that does not parse, or a shifted instant past the range of a [Date],
    is formatted as the invalid date. *)
Theorem formatDateTime_shifts_the_instant :
  forall (Date_parse : string -> TimeValue)
         (toLocaleString : TimeValue -> string -> DateTimeFormatOptions -> string)
         (dateString : string),
  exists parsed : string,
    (occurs_in "Z" dateString -> parsed = dateString) /\
    (~ occurs_in "Z" dateString -> parsed = (dateString ++ "Z")%string) /\
    istOffset = (5 * 3600000 + 30 * 60000)%Z /\
    istOffset = 19800000%Z /\
    (forall t : Z,
       Date_parse parsed = Some t ->
       (- maxTime <= t + 19800000 <= maxTime)%Z ->
       formatDateTime Date_parse toLocaleString dateString =
       toLocaleString (Some (t + 19800000)%Z) "en-IN"
         {| year := "numeric"; month := "short"; day := "numeric";
            hour := "2-digit"; minute := "2-digit"; hour12 := true;
            timeZone := None |}) /\
    (forall t : Z,
       Date_parse parsed = Some t ->
       (maxTime < Z.abs (t + 19800000))%Z ->
       formatDateTime Date_parse toLocaleString dateString =
       toLocaleString None "en-IN"
         {| year := "numeric"; month := "short"; day := "numeric";
            hour := "2-digit"; minute := "2-digit"; hour12 := true;
            timeZone := None |}) /\
    (Date_parse parsed = None ->
       formatDateTime Date_parse toLocaleString dateString =
       toLocaleString None "en-IN"
         {| year := "numeric"; month := "short"; day := "numeric";
            hour := "2-digit"; minute := "2-digit"; hour12 := true;
            timeZone := None |}).
Proof.
  intros Date_parse toLocaleString dateString.
  exists (dateString ++ (if includes dateString "Z" then "" else "Z"))%string.
  split; [| split; [| split; [| split; [| split; [| split]]]]].
  - intros Hz. apply includes_spec in Hz. rewrite Hz.
    clear Hz. induction dateString as [| c s IH]; simpl; [reflexivity | now rewrite IH].
  - intros Hz. apply includes_false in Hz. now rewrite Hz.
  - reflexivity.
  - reflexivity.
  - intros t Ht Hrange. unfold formatDateTime. rewrite Ht. unfold plus.
    rewrite istOffset_ms, TimeClip_in_range by exact Hrange. reflexivity.
  - intros t Ht Hrange. unfold formatDateTime. rewrite Ht. unfold plus.
    rewrite istOffset_ms, TimeClip_out_of_range by exact Hrange. reflexivity.
  - intros Ht. unfold formatDateTime. rewrite Ht. reflexivity.
Qed.

End ActivitiesFacts.

(* ===================================================================== *)
(** * Part III: further properties of the pages *)
(* ===================================================================== *)

(** ** The fallback scan on longer logs *)

Module ScanFacts.
Import Inventory.

Section Extension.
Context {number : Type}.
Implicit Types (rows extra : list (Transaction number)) (seen : list string).

Lemma existsb_eqb_In (k : string) (l : list string) :
  existsb (fun k' => String.eqb k' k) l = true <-> In k l.
Proof.
  rewrite existsb_exists. split.
  - intros [k' [Hin Heq]]. apply String.eqb_eq in Heq. now subst.
  - intros Hin. exists k. split; [exact Hin | apply String.eqb_refl].
Qed.

Lemma first_seen_app rows : forall seen extra,
  first_seen seen (rows ++ extra)
  = first_seen seen rows
    ++ first_seen (seen ++ map item_id (first_seen seen rows)) extra.
Proof.
  induction rows as [| t rows IH]; intros seen extra; simpl.
  - now rewrite app_nil_r.
  - destruct (existsb _ seen); [apply IH |].
    simpl. rewrite IH. f_equal. f_equal. f_equal.
    now rewrite <- app_assoc.
Qed.

Lemma first_seen_known extra : forall seen,
  (forall t, In t extra -> In (item_id t) seen) ->
  first_seen seen extra = [].
Proof.
  induction extra as [| t extra IH]; intros seen Hknown; simpl; [reflexivity |].
  assert (Ht : existsb (fun k => String.eqb k (item_id t)) seen = true)
    by (apply existsb_eqb_In, Hknown; now left).
  rewrite Ht. apply IH. intros t' Hin. apply Hknown. now right.
Qed.

Lemma first_seen_keys rows : forall seen k,
  In k (seen ++ map item_id (first_seen seen rows)) <->
  In k seen \/ In k (map item_id rows).
Proof.
  induction rows as [| t rows IH]; intros seen k; simpl.
  - rewrite app_nil_r. tauto.
  - destruct (existsb (fun k' => String.eqb k' (item_id t)) seen) eqn:Ht.
    + rewrite IH. apply existsb_eqb_In in Ht.
      split; [tauto |]. intros [H | [H | H]]; [tauto | subst k; tauto | tauto].
    + simpl. specialize (IH (seen ++ [item_id t]) k).
      rewrite <- app_assoc in IH. simpl in IH. rewrite IH.
      rewrite in_app_iff. simpl. tauto.
Qed.

Lemma first_seen_fresh rows : forall seen,
  NoDup (map item_id rows) ->
  (forall t, In t rows -> ~ In (item_id t) seen) ->
  first_seen seen rows = rows.
Proof.
  induction rows as [| t rows IH]; intros seen Hnd Hfresh; simpl; [reflexivity |].
  inversion Hnd as [| ? ? Hnotin Hnd']; subst.
  destruct (existsb (fun k => String.eqb k (item_id t)) seen) eqn:Ht.
  - apply existsb_eqb_In in Ht. exfalso. apply (Hfresh t); [now left | exact Ht].
  - f_equal. apply IH; [exact Hnd' |].
    intros t' Hin Hseen. apply in_app_or in Hseen. destruct Hseen as [Hseen | [Heq | []]].
    + apply (Hfresh t'); [now right | exact Hseen].
    + apply Hnotin. rewrite Heq. now apply in_map.
Qed.

End Extension.

(** X1.  Older history does not matter: transactions appended after a
    list, all of items that already occur in it, leave the result of the
    scan as it is. *)
Theorem older_transactions_are_ignored :
  forall (number E : Type) (transactions older : list (Transaction number))
         (h : Heap.t (StockSummary.t number)),
    (forall t, In t older -> In (item_id t) (map item_id transactions)) ->
    fst (stockMapScan (E := E) (Some (transactions ++ older)) h)
    = fst (stockMapScan (E := E) (Some transactions) h).
Proof.
  intros number E transactions older h Hknown.
  rewrite !InventoryFacts.stockMapScan_rows. simpl.
  rewrite first_seen_app.
  rewrite (first_seen_known older); [now rewrite app_nil_r |].
  intros t Hin. apply (first_seen_keys transactions [] (item_id t)).
  right. now apply Hknown.
Qed.

Lemma older_transactions_are_ignored_witness :
  (forall t, In t (skipn 2 Sample.transactions) ->
             In (item_id t) (map item_id (firstn 2 Sample.transactions))) /\
  fst (stockMapScan (E := PostgrestError)
         (Some (firstn 2 Sample.transactions ++ skipn 2 Sample.transactions)) [])
  = fst (stockMapScan (E := PostgrestError) (Some (firstn 2 Sample.transactions)) []).
Proof.
  assert (Hknown : forall t, In t (skipn 2 Sample.transactions) ->
                     In (item_id t) (map item_id (firstn 2 Sample.transactions))).
  { intros t [<- | []]. simpl. now left. }
  split; [exact Hknown |].
  apply (older_transactions_are_ignored Z PostgrestError
           (firstn 2 Sample.transactions) (skipn 2 Sample.transactions) [] Hknown).
Defined.

(** X2.  A longer log only adds entries: the result of the scan on a list
    followed by further transactions is the result on the list, followed
    by entries for the items that were not in it, none of which carries
    an item of the list. *)
Theorem longer_log_extends_summary :
  forall (number E : Type) (transactions further : list (Transaction number))
         (h : Heap.t (StockSummary.t number)),
  exists out more,
    fst (stockMapScan (E := E) (Some transactions) h) = Ok out /\
    fst (stockMapScan (E := E) (Some (transactions ++ further)) h) = Ok (out ++ more) /\
    (forall k, In k (map StockSummary.item_id more) <->
               In k (map item_id further) /\ ~ In k (map item_id transactions)).
Proof.
  intros number E transactions further h.
  rewrite !InventoryFacts.stockMapScan_rows. simpl.
  exists (map summary_of (first_seen [] transactions)).
  exists (map summary_of
            (first_seen (map item_id (first_seen [] transactions)) further)).
  split; [reflexivity |]. split.
  - now rewrite first_seen_app, map_app.
  - intros k. rewrite InventoryFacts.summary_keys.
    pose proof (first_seen_keys transactions [] k) as Hold. simpl in Hold.
    pose proof (first_seen_keys further (map item_id (first_seen [] transactions)) k) as Hnew.
    rewrite in_app_iff in Hnew. split.
    + intros Hin. apply in_map_iff in Hin. destruct Hin as [t [Hk Ht]].
      apply InventoryFacts.first_seen_In in Ht. destruct Ht as [Hfurther Hseen].
      split.
      * rewrite <- Hk. now apply in_map.
      * intros Hknown.
        assert (Hyes : existsb (fun k' => String.eqb k' (item_id t))
                         (map item_id (first_seen [] transactions)) = true).
        { apply existsb_eqb_In. rewrite Hk. tauto. }
        congruence.
    + intros [Hin Hfresh]. tauto.
Qed.

(** X3.  When no two transactions of the list share an item, the scan
    keeps every one of them: its result is the list of their snapshots, in
    the order of the list. *)
Theorem distinct_items_all_kept :
  forall (number E : Type) (transactions : list (Transaction number))
         (h : Heap.t (StockSummary.t number)),
    NoDup (map item_id transactions) ->
    fst (stockMapScan (E := E) (Some transactions) h)
    = Ok (map summary_of transactions).
Proof.
  intros number E transactions h Hnd.
  rewrite InventoryFacts.stockMapScan_rows. simpl.
  rewrite first_seen_fresh; auto.
Qed.

Lemma distinct_items_all_kept_witness :
  NoDup (map item_id (firstn 2 Sample.transactions)) /\
  fst (stockMapScan (E := PostgrestError) (Some (firstn 2 Sample.transactions)) [])
  = Ok (map summary_of (firstn 2 Sample.transactions)).
Proof.
  assert (Hnd : NoDup (map item_id (firstn 2 Sample.transactions))).
  { simpl. repeat constructor; simpl; intuition discriminate. }
  split; [exact Hnd |].
  apply (distinct_items_all_kept Z PostgrestError (firstn 2 Sample.transactions) [] Hnd).
Defined.

End ScanFacts.

(** ** The site-stock-summary query: failure *)

Module QueryFacts.
Import Inventory.

(** X4.  The query fails only when a site is selected and both the
    server procedure and the fallback read fail; the error thrown is then
    the one of the fallback read, both requests have been sent, and the
    error of the procedure is never the one thrown. *)
Theorem query_throws_only_the_fallback_error :
  forall (number : Type) (supabase : Supabase number) (selectedSite : string)
         (w w' : QueryWorld number) (e : PostgrestError),
    siteStockSummary_queryFn supabase selectedSite w = (Throw e, w') ->
    selectedSite <> "" /\
    error (rpc_get_site_stock_summary supabase selectedSite) <> None /\
    error (select_transactions supabase selectedSite) = Some e /\
    requests w' = requests w ++
      [ Rpc "get_site_stock_summary" selectedSite;
        SelectTransactions "inventory_transactions" selectedSite "created_at" ].
Proof.
  intros number supabase selectedSite w w' e.
  unfold siteStockSummary_queryFn.
  destruct selectedSite as [| c site]; [discriminate |].
  cbn [truthy negb]. unfold bind at 1. unfold send at 1, modify.
  destruct (error (rpc_get_site_stock_summary supabase (String c site))) as [rpcError |];
    [| discriminate].
  unfold bind, send, modify.
  destruct (error (select_transactions supabase (String c site))) as [transError |].
  - unfold throw. intros H. injection H as <- <-. cbn.
    rewrite <- app_assoc. repeat split; discriminate.
  - unfold onHeap. cbn -[stockMapScan].
    destruct (data (select_transactions supabase (String c site))).
    + rewrite InventoryFacts.stockMapScan_rows. discriminate.
    + rewrite InventoryFacts.stockMapScan_null. discriminate.
Qed.

Lemma query_throws_only_the_fallback_error_witness :
  siteStockSummary_queryFn Sample.unreachable "s1" Sample.start
  = (Throw {| message := "permission denied" |},
     {| requests := [ Rpc "get_site_stock_summary" "s1";
                      SelectTransactions "inventory_transactions" "s1" "created_at" ];
        heap := [] |}) /\
  "s1" <> "" /\
  error (rpc_get_site_stock_summary Sample.unreachable "s1") <> None /\
  error (select_transactions Sample.unreachable "s1")
  = Some {| message := "permission denied" |}.
Proof.
  split; [reflexivity |].
  destruct (query_throws_only_the_fallback_error Z Sample.unreachable "s1" Sample.start
              _ _ eq_refl) as [Hsite [Hrpc [Hread _]]].
  auto.
Defined.

End QueryFacts.

(** ** The handlers of the Inventory page *)

Module HandlerFacts.
Import Inventory.

Lemma or_default_empty (x : Nullable string) :
  or_default x "" = match x with Some text => text | None => "" end.
Proof.
  destruct x as [[| c text] |]; reflexivity.
Qed.

Section Page.
Context {Data : Type}.
Variable store : Write -> Nullable PostgrestError.
Variable confirm : string -> bool.

(** Every action returns normally, and shows as many notifications as it
    sends writes. *)
Lemma act_balanced (a : Action) (w : Page Data) :
  exists w',
    act store confirm a w = (Ok tt, w') /\
    List.length (toasts w') + List.length (sent w)
    = List.length (toasts w) + List.length (sent w') /\
    List.length (sent w') <= S (List.length (sent w)).
Proof.
  destruct a; run_page;
    repeat match goal with
           | |- context [confirm ?m] => destruct (confirm m); cbn -[invalidateQueries or_default]
           | |- context [match editingItem w with _ => _ end] =>
               destruct (editingItem w); cbn -[invalidateQueries or_default]
           | |- context [store ?r] => destruct (store r); cbn -[invalidateQueries or_default]
           end;
    eexists; (split; [reflexivity |]); cbn; rewrite ?length_app; cbn; lia.
Qed.

(** An action other than a submit, with every confirmation declined,
    writes nothing, shows nothing and leaves the cache alone. *)
Lemma act_quiet (a : Action) (w : Page Data) :
  a <> SubmitForm ->
  (forall question, confirm question = false) ->
  exists w',
    act store confirm a w = (Ok tt, w') /\
    sent w' = sent w /\ toasts w' = toasts w /\ cache w' = cache w.
Proof.
  intros Hsubmit Hdeclined.
  destruct a; try contradiction; run_page; rewrite ?Hdeclined;
    eexists; (split; [reflexivity |]); cbn; auto.
Qed.

End Page.

(** X5.  A cancelled edit leaks into the next add.  After Edit on an
    item, Cancel, Add, typing values and a submit, the page has not sent an
    insert: the one write sent is an update of the item edited before,
    with the values typed into the Add form. *)
Theorem add_after_cancelled_edit_updates :
  forall (Data : Type) (store : Write -> Nullable PostgrestError) (confirm : string -> bool)
         (item : Item.t) (values : Form.t) (w : Page Data),
  exists w',
    perform store confirm
      [ClickEdit item; CancelEdit; ClickAdd; TypeInForm values; SubmitForm] w
    = (Ok tt, w') /\
    sent w' = sent w ++ [Update "inventory_items" values (Item.id item)].
Proof.
  intros Data store confirm item values w. run_page.
  destruct (store (Update "inventory_items" values (Item.id item)));
    eexists; split; reflexivity.
Qed.

(** X6.  Submitting the edit form as [handleEdit] filled it writes the
    item back under its own id with its own name and unit, the empty
    string for a null category, and ["active"] for a null or empty
    status. *)
Theorem unchanged_edit_normalises_nulls :
  forall (Data : Type) (store : Write -> Nullable PostgrestError) (confirm : string -> bool)
         (item : Item.t) (w : Page Data),
  exists w' payload,
    perform store confirm [ClickEdit item; SubmitForm] w = (Ok tt, w') /\
    sent w' = sent w ++ [Update "inventory_items" payload (Item.id item)] /\
    Form.name payload = Item.name item /\
    Form.unit payload = Item.unit item /\
    Form.category payload
    = match Item.category item with Some text => text | None => "" end /\
    Form.status payload
    = match Item.status item with
      | Some "" | None => "active"
      | Some text => text
      end.
Proof.
  intros Data store confirm item w. run_page.
  match goal with
  | |- context [store ?r] => destruct (store r)
  end;
    do 2 eexists; (split; [reflexivity |]); (split; [reflexivity |]);
    cbn -[or_default]; rewrite !or_default_empty;
    (repeat split; try reflexivity);
    destruct (Item.status item) as [[| c text] |]; reflexivity.
Qed.

(** X7.  After an update the store accepted, the page is back in add
    mode: the edit dialog is closed, no item is being edited, and the next
    Add followed by a submit sends an insert. *)
Theorem add_after_successful_edit_inserts :
  forall (Data : Type) (store : Write -> Nullable PostgrestError) (confirm : string -> bool)
         (item : Item.t) (edited added : Form.t) (w : Page Data),
    store (Update "inventory_items" edited (Item.id item)) = None ->
    exists w1 w2,
      perform store confirm [ClickEdit item; TypeInForm edited; SubmitForm] w = (Ok tt, w1) /\
      isEditDialogOpen w1 = false /\
      editingItem w1 = None /\
      perform store confirm [ClickAdd; TypeInForm added; SubmitForm] w1 = (Ok tt, w2) /\
      sent w2 = sent w ++ [ Update "inventory_items" edited (Item.id item);
                            Insert "inventory_items" added ].
Proof.
  intros Data store confirm item edited added w Haccepted.
  destruct (store (Insert "inventory_items" added)) eqn:Hinsert;
    (eexists; eexists; (split; [| split; [| split; [| split]]]);
     [ run_page; rewrite Haccepted; reflexivity
     | reflexivity
     | reflexivity
     | run_page; rewrite Hinsert; reflexivity
     | cbn; now rewrite <- app_assoc ]).
Qed.

Lemma add_after_successful_edit_inserts_witness :
  Sample.accepting (Update "inventory_items" Sample.gravel
                      (Item.id (Sample.item "A" "Cement" (Some "Binding") "bag"))) = None /\
  exists w1 w2,
    perform Sample.accepting Sample.declining
      [ClickEdit (Sample.item "A" "Cement" (Some "Binding") "bag");
       TypeInForm Sample.gravel; SubmitForm] Sample.blank_page = (Ok tt, w1) /\
    isEditDialogOpen w1 = false /\
    editingItem w1 = None /\
    perform Sample.accepting Sample.declining
      [ClickAdd; TypeInForm Sample.gravel; SubmitForm] w1 = (Ok tt, w2) /\
    sent w2 = sent Sample.blank_page ++
      [ Update "inventory_items" Sample.gravel
          (Item.id (Sample.item "A" "Cement" (Some "Binding") "bag"));
        Insert "inventory_items" Sample.gravel ].
Proof.
  split; [reflexivity |].
  apply (add_after_successful_edit_inserts unit Sample.accepting Sample.declining
           (Sample.item "A" "Cement" (Some "Binding") "bag")
           Sample.gravel Sample.gravel Sample.blank_page).
  reflexivity.
Defined.

(** X8.  Over any sequence of actions on the items tab the page never
    fails, and every write it sends is answered by exactly one
    notification: the notifications shown and the writes sent grow by the
    same number, at most one per action. *)
Theorem every_write_is_notified :
  forall (Data : Type) (store : Write -> Nullable PostgrestError) (confirm : string -> bool)
         (actions : list Action) (w : Page Data),
  exists w',
    perform store confirm actions w = (Ok tt, w') /\
    List.length (toasts w') + List.length (sent w)
    = List.length (toasts w) + List.length (sent w') /\
    List.length (sent w') <= List.length (sent w) + List.length actions.
Proof.
  intros Data store confirm actions. unfold perform.
  induction actions as [| a actions IH]; intros w.
  - exists w. cbn. repeat split; lia.
  - destruct (act_balanced store confirm a w) as [w1 [Hact [Hbal Hone]]].
    destruct (IH w1) as [w' [Hrest [Hbal' Hmany]]].
    exists w'. cbn [forEach]. unfold bind at 1. rewrite Hact.
    split; [exact Hrest |]. cbn [List.length]. lia.
Qed.

(** X9.  Nothing reaches the store without a submit or a confirmed
    delete: a sequence of actions without a submit, every confirmation
    being declined, sends no write, shows no notification and leaves the
    query cache as it was. *)
Theorem no_write_without_submit_or_confirmation :
  forall (Data : Type) (store : Write -> Nullable PostgrestError) (confirm : string -> bool)
         (actions : list Action) (w : Page Data),
    ~ In SubmitForm actions ->
    (forall question, confirm question = false) ->
    exists w',
      perform store confirm actions w = (Ok tt, w') /\
      sent w' = sent w /\ toasts w' = toasts w /\ cache w' = cache w.
Proof.
  intros Data store confirm actions w Hsubmit Hdeclined. revert w. unfold perform.
  induction actions as [| a actions IH]; intros w.
  - exists w. cbn. auto.
  - assert (Ha : a <> SubmitForm) by (intros ->; apply Hsubmit; now left).
    destruct (act_quiet store confirm a w Ha Hdeclined) as [w1 [Hact [Hs [Ht Hc]]]].
    destruct (IH (fun H => Hsubmit (or_intror H)) w1) as [w' [Hrest [Hs' [Ht' Hc']]]].
    exists w'. cbn [forEach]. unfold bind at 1. rewrite Hact.
    split; [exact Hrest |]. repeat split; congruence.
Qed.

Lemma no_write_without_submit_or_confirmation_witness :
  ~ In SubmitForm
      [ClickAdd; TypeInForm Sample.gravel; CancelAdd;
       ClickDelete (Sample.item "A" "Cement" (Some "Binding") "bag")] /\
  (forall question, Sample.declining question = false) /\
  exists w',
    perform Sample.accepting Sample.declining
      [ClickAdd; TypeInForm Sample.gravel; CancelAdd;
       ClickDelete (Sample.item "A" "Cement" (Some "Binding") "bag")] Sample.blank_page
    = (Ok tt, w') /\
    sent w' = sent Sample.blank_page /\
    toasts w' = toasts Sample.blank_page /\
    cache w' = cache Sample.blank_page.
Proof.
  assert (Hsubmit : ~ In SubmitForm
            [ClickAdd; TypeInForm Sample.gravel; CancelAdd;
             ClickDelete (Sample.item "A" "Cement" (Some "Binding") "bag")]).
  { cbn. intuition discriminate. }
  assert (Hdeclined : forall question, Sample.declining question = false)
    by reflexivity.
  split; [exact Hsubmit | split; [exact Hdeclined |]].
  apply (no_write_without_submit_or_confirmation unit Sample.accepting Sample.declining
           _ Sample.blank_page Hsubmit Hdeclined).
Defined.

End HandlerFacts.

(** ** The sign-in page: the other paths of the handlers *)

Module AuthFlowFacts.
Import Auth.

(** X10.  Submitting the code form with an empty code is rejected in the
    handler: one error notification is shown, [verifyOtp] is not called,
    nothing is navigated to, and page state and session are unchanged. *)
Theorem empty_code_rejected_before_request :
  forall (auth : UseAuth) (w : World),
    otp (page w) = "" ->
    exists w',
      handleOtpSubmit auth w = (Ok tt, w') /\
      effects w' = effects w ++
        [ PreventDefault;
          ShowToast {| title := "Error";
                       description := "Please enter the verification code";
                       variant := Some "destructive" |} ] /\
      page w' = page w /\
      session w' = session w.
Proof.
  intros auth w Hempty. eexists. split.
  - run_auth. rewrite Hempty. reflexivity.
  - cbn. rewrite <- app_assoc. auto.
Qed.

Lemma empty_code_rejected_before_request_witness :
  otp (page Sample.address_entered) = "" /\
  exists w',
    handleOtpSubmit Sample.granting Sample.address_entered = (Ok tt, w') /\
    effects w' = effects Sample.address_entered ++
      [ PreventDefault;
        ShowToast {| title := "Error";
                     description := "Please enter the verification code";
                     variant := Some "destructive" |} ] /\
    page w' = page Sample.address_entered /\
    session w' = session Sample.address_entered.
Proof.
  split; [reflexivity |].
  apply (empty_code_rejected_before_request Sample.granting Sample.address_entered).
  reflexivity.
Defined.

(** On a service whose calls all resolve the handlers over calls that may
    reject are the handlers of [Auth]. *)
Lemma resolving_handleEmailSubmit (auth : UseAuth) (w : World) :
  Async.handleEmailSubmit (resolving auth) w = handleEmailSubmit auth w.
Proof.
  run_auth. run_async. destruct (email (page w)); cbn; [reflexivity |].
  now destruct (signInWithOtp auth _).
Qed.

Lemma resolving_handleOtpSubmit (auth : UseAuth) (w : World) :
  Async.handleOtpSubmit (resolving auth) w = handleOtpSubmit auth w.
Proof.
  run_auth. run_async. destruct (otp (page w)); cbn; [reflexivity |].
  now destruct (verifyOtp auth _ _).
Qed.

(** X11.  With an address entered, [handleEmailSubmit] sends exactly one
    request for a code.  When the call resolves the handler returns after
    exactly one notification, with [loading] false: the page moves to the
    code step when the service reports no error, and keeps its step when
    it reports one, the notification then carrying the error's message, or
    ["Failed to send OTP"] when the message is empty.  When the call
    rejects, the handler throws the reason: no notification is shown, the
    step is kept and [loading] stays true.  The address stays in its field
    in every case. *)
Theorem code_request_outcome :
  forall (auth : Async.UseAuth) (w : World),
    email (page w) <> "" ->
    match Async.signInWithOtp auth (email (page w)) with
    | Async.Resolves answer =>
        exists w' shown,
          Async.handleEmailSubmit auth w = (Ok tt, w') /\
          effects w' = effects w ++
            [ PreventDefault; RequestCode (email (page w)); ShowToast shown ] /\
          loading (page w') = false /\
          email (page w') = email (page w) /\
          match answer with
          | None =>
              step (page w') = OtpStep /\
              shown = {| title := "OTP Sent";
                         description := "Check your email for the verification code";
                         variant := None |}
          | Some error =>
              step (page w') = step (page w) /\
              shown = {| title := "Error";
                         description :=
                           match message error with
                           | "" => "Failed to send OTP"
                           | text => text
                           end;
                         variant := Some "destructive" |}
          end
    | Async.Rejects reason =>
        exists w',
          Async.handleEmailSubmit auth w = (Throw reason, w') /\
          effects w' = effects w ++ [ PreventDefault; RequestCode (email (page w)) ] /\
          loading (page w') = true /\
          email (page w') = email (page w) /\
          step (page w') = step (page w)
    end.
Proof.
  intros auth w Haddress.
  destruct (Async.signInWithOtp auth (email (page w))) as [[error |] | reason] eqn:Hsent.
  - do 2 eexists. split.
    + run_async. rewrite (truthy_nonempty _ Haddress). cbn. rewrite Hsent. reflexivity.
    + cbn. rewrite <- !app_assoc. cbn. repeat split.
      unfold or_else. now destruct (message error).
  - do 2 eexists. split.
    + run_async. rewrite (truthy_nonempty _ Haddress). cbn. rewrite Hsent. reflexivity.
    + cbn. rewrite <- !app_assoc. cbn. repeat split.
  - eexists. split.
    + run_async. rewrite (truthy_nonempty _ Haddress). cbn. rewrite Hsent. reflexivity.
    + cbn. rewrite <- !app_assoc. cbn. repeat split.
Qed.

(** The request for a code on two services.  On one that cannot be
    reached the handler throws after the request, and the page stays busy
    on the address step; on one that sends the code the handler returns on
    the code step with [loading] false. *)
Lemma code_request_outcome_witness :
  email (page Sample.address_entered) <> "" /\
  (exists w',
     Async.handleEmailSubmit Sample.offline Sample.address_entered
     = (Throw {| message := "Failed to fetch" |}, w') /\
     effects w' = [ PreventDefault; RequestCode "admin@example.com" ] /\
     loading (page w') = true /\
     step (page w') = EmailStep) /\
  (exists w',
     Async.handleEmailSubmit (resolving Sample.granting) Sample.address_entered
     = (Ok tt, w') /\
     effects w' =
       [ PreventDefault; RequestCode "admin@example.com";
         ShowToast {| title := "OTP Sent";
                      description := "Check your email for the verification code";
                      variant := None |} ] /\
     loading (page w') = false /\
     step (page w') = OtpStep).
Proof.
  split; [discriminate |]. split.
  - destruct (code_request_outcome Sample.offline Sample.address_entered ltac:(discriminate))
      as [w' [Hrun [Heffects [Hbusy [_ Hstep]]]]].
    exists w'. split; [exact Hrun |]. split; [exact Heffects |]. split; [exact Hbusy |].
    exact Hstep.
  - destruct (code_request_outcome (resolving Sample.granting) Sample.address_entered
                ltac:(discriminate))
      as [w' [shown [Hrun [Heffects [Hidle [_ [Hstep Hshown]]]]]]].
    exists w'. split; [exact Hrun |]. split; [now rewrite Heffects, Hshown |].
    split; [exact Hidle | exact Hstep].
Defined.

(** X12.  The page is left only after a verification the service
    accepts.  [handleEmailSubmit] never navigates; [handleOtpSubmit] does
    not navigate when the code is empty or [verifyOtp] reports an error;
    and when the code is not empty and [verifyOtp] reports no error, its
    last effect is the navigation to [/], the only one it adds. *)
Theorem navigation_only_on_accepted_code :
  forall (auth : UseAuth) (w : World),
    filter is_navigation (effects (snd (handleEmailSubmit auth w)))
    = filter is_navigation (effects w) /\
    (otp (page w) = "" \/ verifyOtp auth (email (page w)) (otp (page w)) <> None ->
       filter is_navigation (effects (snd (handleOtpSubmit auth w)))
       = filter is_navigation (effects w)) /\
    (otp (page w) <> "" /\ verifyOtp auth (email (page w)) (otp (page w)) = None ->
       exists before,
         effects (snd (handleOtpSubmit auth w)) = before ++ [Navigate "/"] /\
         filter is_navigation before = filter is_navigation (effects w)).
Proof.
  intros auth w. split; [| split].
  - run_auth. destruct (email (page w)) as [| c address]; cbn.
    + rewrite <- !app_assoc. now apply AuthFacts.filter_app_none.
    + destruct (signInWithOtp auth (String c address)); cbn;
        rewrite <- !app_assoc; now apply AuthFacts.filter_app_none.
  - intros Hrefused. run_auth. destruct (otp (page w)) as [| c code]; cbn.
    + rewrite <- !app_assoc. now apply AuthFacts.filter_app_none.
    + destruct (verifyOtp auth (email (page w)) (String c code)) as [error |]; cbn.
      * rewrite <- !app_assoc. now apply AuthFacts.filter_app_none.
      * destruct Hrefused as [Hempty | Herror]; [discriminate | contradiction].
  - intros [Hcode Haccepted]. run_auth.
    rewrite (truthy_nonempty _ Hcode). cbn. rewrite Haccepted. cbn.
    eexists. split; [reflexivity |].
    rewrite <- !app_assoc. now apply AuthFacts.filter_app_none.
Qed.

(** X13.  The button "Use Different Email" returns the page to the
    address step with both fields empty, touching neither the session nor
    the service; a submit right after it is rejected in the handler and
    sends no request. *)
Theorem reset_returns_to_blank_address_step :
  forall (auth : UseAuth) (w : World),
  exists w1 w2,
    resetFlow w = (Ok tt, w1) /\
    email (page w1) = "" /\ otp (page w1) = "" /\ step (page w1) = EmailStep /\
    session w1 = session w /\ effects w1 = effects w /\
    handleEmailSubmit auth w1 = (Ok tt, w2) /\
    filter is_request (effects w2) = filter is_request (effects w) /\
    step (page w2) = EmailStep.
Proof.
  intros auth w. do 2 eexists.
  split; [run_auth; reflexivity |]. cbn.
  do 5 (split; [reflexivity |]).
  split; [run_auth; reflexivity |]. cbn.
  split; [| reflexivity]. rewrite <- app_assoc.
  now apply AuthFacts.filter_app_none.
Qed.

(** X14.  A handler that calls the service ends with [loading] false
    exactly when the call resolves.  There is no [finally] around the
    [await]: when the call rejects the handler throws the reason and
    [loading] stays true.  A handler that returns without calling the
    service leaves [loading] as it was. *)
Theorem loading_cleared_only_when_call_resolves :
  forall (auth : Async.UseAuth) (w : World),
    (if truthy (email (page w)) then
       match Async.signInWithOtp auth (email (page w)) with
       | Async.Resolves _ =>
           fst (Async.handleEmailSubmit auth w) = Ok tt /\
           loading (page (snd (Async.handleEmailSubmit auth w))) = false
       | Async.Rejects reason =>
           fst (Async.handleEmailSubmit auth w) = Throw reason /\
           loading (page (snd (Async.handleEmailSubmit auth w))) = true
       end
     else
       fst (Async.handleEmailSubmit auth w) = Ok tt /\
       loading (page (snd (Async.handleEmailSubmit auth w))) = loading (page w)) /\
    (if truthy (otp (page w)) then
       match Async.verifyOtp auth (email (page w)) (otp (page w)) with
       | Async.Resolves _ =>
           fst (Async.handleOtpSubmit auth w) = Ok tt /\
           loading (page (snd (Async.handleOtpSubmit auth w))) = false
       | Async.Rejects reason =>
           fst (Async.handleOtpSubmit auth w) = Throw reason /\
           loading (page (snd (Async.handleOtpSubmit auth w))) = true
       end
     else
       fst (Async.handleOtpSubmit auth w) = Ok tt /\
       loading (page (snd (Async.handleOtpSubmit auth w))) = loading (page w)).
Proof.
  intros auth w. split; run_async.
  - destruct (email (page w)) as [| c address]; cbn; [split; reflexivity |].
    destruct (Async.signInWithOtp auth (String c address)) as [[error |] | reason];
      cbn; split; reflexivity.
  - destruct (otp (page w)) as [| c code]; cbn; [split; reflexivity |].
    destruct (Async.verifyOtp auth (email (page w)) (String c code)) as [[error |] | reason];
      cbn; split; reflexivity.
Qed.

(** The page after a code is submitted to a service that cannot be
    reached: still busy. *)
Example loading_stays_true_when_offline :
  loading (page (snd (Async.handleOtpSubmit Sample.offline Sample.code_entered))) = true.
Proof. reflexivity. Qed.

End AuthFlowFacts.

(** ** The authentication guard: what is rendered when *)

Module GuardFacts.
Import App.

(** X15.  Whatever the router does, [ProtectedApp] renders the loading
    placeholder exactly while authentication is loading, the sign-in view
    exactly when loading has finished without a user, and the shell with
    the routes exactly when loading has finished with a user: no page is
    ever rendered for a visitor who is not signed in. *)
Theorem pages_only_for_signed_in_users :
  forall (User : Type) (matchPath : string -> string -> bool)
         (auth : AuthContext User) (pathname : string),
    (ProtectedApp matchPath auth pathname = LoadingView <-> loading auth = true) /\
    (ProtectedApp matchPath auth pathname = AuthView <->
       loading auth = false /\ user auth = None) /\
    ((exists content, ProtectedApp matchPath auth pathname = Shell content) <->
       loading auth = false /\ user auth <> None).
Proof.
  intros User matchPath auth pathname. unfold ProtectedApp.
  destruct (loading auth), (user auth) as [u |];
    (split; [| split]); split; intros H;
    try discriminate; try reflexivity;
    try (destruct H; discriminate);
    try (destruct H; congruence);
    try (split; reflexivity);
    try (split; [reflexivity | discriminate]);
    try (eexists; reflexivity).
Qed.




End GuardFacts.

(** ** The image viewer of the Activities page *)

Module ViewerFacts.
Import Activities.
Import QArith Qminmax Lqa.
Local Open Scope Q_scope.

Lemma grid_bounds (k : Z) : (2 <= k <= 12)%Z -> 2 <= inject_Z k <= 12.
Proof.
  intros [Hlow Hhigh]. rewrite Zle_Qle in Hlow, Hhigh. split; assumption.
Qed.

Lemma grid_in_range (zoom : Q) : on_quarter_grid zoom -> 1 # 2 <= zoom <= 3.
Proof.
  intros [k [Hk Hzoom]]. apply grid_bounds in Hk. lra.
Qed.

Lemma zoom_in_on_grid (zoom : Q) :
  on_quarter_grid zoom -> on_quarter_grid (Qmin (zoom + (1 # 4)) 3).
Proof.
  intros [k [Hk Hzoom]]. pose proof (grid_bounds k Hk) as Hb.
  destruct (Z_le_gt_dec k 11) as [Hle | Hgt].
  - exists (k + 1)%Z. split; [lia |].
    assert (Hq : inject_Z k <= 11) by (rewrite Zle_Qle in Hle; exact Hle).
    rewrite Q.min_l by lra. rewrite inject_Z_plus. change (inject_Z 1) with 1. lra.
  - assert (k = 12)%Z by lia. subst k. exists 12%Z. split; [lia |].
    change (inject_Z 12) with 12 in Hzoom.
    rewrite Q.min_r by lra. reflexivity.
Qed.

Lemma zoom_out_on_grid (zoom : Q) :
  on_quarter_grid zoom -> on_quarter_grid (Qmax (zoom - (1 # 4)) (1 # 2)).
Proof.
  intros [k [Hk Hzoom]]. pose proof (grid_bounds k Hk) as Hb.
  destruct (Z_le_gt_dec 3 k) as [Hge | Hlt].
  - exists (k - 1)%Z. split; [lia |].
    assert (Hq : 3 <= inject_Z k) by (rewrite Zle_Qle in Hge; exact Hge).
    rewrite Q.max_l by lra.
    replace (k - 1)%Z with (k + -1)%Z by lia.
    rewrite inject_Z_plus. change (inject_Z (-1)) with (-1). lra.
  - assert (k = 2)%Z by lia. subst k. exists 2%Z. split; [lia |].
    change (inject_Z 2) with 2 in Hzoom.
    rewrite Q.max_r by lra. reflexivity.
Qed.

Lemma one_on_grid : on_quarter_grid 1.
Proof.
  exists 4%Z. split; [lia | reflexivity].
Qed.

Lemma step_on_grid (a : ViewerAction) (v : Viewer) :
  on_quarter_grid (imageZoom v) -> on_quarter_grid (imageZoom (viewerStep a v)).
Proof.
  intros Hgrid. destruct a; cbn.
  - apply one_on_grid.
  - now apply zoom_in_on_grid.
  - now apply zoom_out_on_grid.
  - apply one_on_grid.
Qed.

Lemma steps_on_grid (actions : list ViewerAction) : forall v,
  on_quarter_grid (imageZoom v) ->
  on_quarter_grid (imageZoom (fold_left (fun v a => viewerStep a v) actions v)).
Proof.
  induction actions as [| a actions IH]; intros v Hgrid; cbn; [exact Hgrid |].
  apply IH. now apply step_on_grid.
Qed.

Lemma after_on_grid (actions : list ViewerAction) :
  on_quarter_grid (imageZoom (viewerAfter actions)).
Proof.
  apply steps_on_grid. apply one_on_grid.
Qed.

(** X17.  Whatever the user clicks in the viewer, the zoom factor stays
    between 0.5 and 3 and is a whole number of quarters. *)
Theorem zoom_stays_in_range :
  forall actions : list ViewerAction,
    1 # 2 <= imageZoom (viewerAfter actions) <= 3 /\
    on_quarter_grid (imageZoom (viewerAfter actions)).
Proof.
  intros actions. split; [apply grid_in_range |]; apply after_on_grid.
Qed.

(** X18.  The zoom buttons undo each other: in any state the viewer can
    reach, zooming in and then out restores the zoom factor when the
    zoom-in button is enabled, and zooming out and then in restores it
    when the zoom-out button is enabled. *)
Theorem zoom_in_and_out_cancel :
  forall actions : list ViewerAction,
    (zoomInDisabled (viewerAfter actions) = false ->
       imageZoom (handleZoomOut (handleZoomIn (viewerAfter actions)))
       == imageZoom (viewerAfter actions)) /\
    (zoomOutDisabled (viewerAfter actions) = false ->
       imageZoom (handleZoomIn (handleZoomOut (viewerAfter actions)))
       == imageZoom (viewerAfter actions)).
Proof.
  intros actions.
  destruct (after_on_grid actions) as [k [Hk Hzoom]].
  pose proof (grid_bounds k Hk) as Hb.
  unfold zoomInDisabled, zoomOutDisabled. cbn.
  set (zoom := imageZoom (viewerAfter actions)) in *.
  split; intros Henabled.
  - assert (Hlt : ~ 3 <= zoom)
      by (rewrite <- Qle_bool_iff; congruence).
    assert (Hk11 : (k <= 11)%Z).
    { destruct (Z_le_gt_dec k 11) as [H | H]; [exact H | exfalso].
      assert (k = 12)%Z by lia. subst k.
      change (inject_Z 12) with 12 in Hzoom. apply Hlt. lra. }
    assert (Hq : inject_Z k <= 11) by (rewrite Zle_Qle in Hk11; exact Hk11).
    rewrite (Q.min_l (zoom + (1 # 4)) 3) by lra.
    rewrite Q.max_l by lra. lra.
  - assert (Hgt : ~ zoom <= 1 # 2)
      by (rewrite <- Qle_bool_iff; congruence).
    assert (Hk3 : (3 <= k)%Z).
    { destruct (Z_le_gt_dec 3 k) as [H | H]; [exact H | exfalso].
      assert (k = 2)%Z by lia. subst k.
      change (inject_Z 2) with 2 in Hzoom. apply Hgt. lra. }
    assert (Hq : 3 <= inject_Z k) by (rewrite Zle_Qle in Hk3; exact Hk3).
    rewrite (Q.max_l (zoom - (1 # 4)) (1 # 2)) by lra.
    rewrite Q.min_l by lra. lra.
Qed.

Lemma zoom_in_and_out_cancel_witness :
  zoomInDisabled (viewerAfter [ClickImage "site.jpg"; ZoomIn]) = false /\
  imageZoom (handleZoomOut (handleZoomIn (viewerAfter [ClickImage "site.jpg"; ZoomIn])))
  == imageZoom (viewerAfter [ClickImage "site.jpg"; ZoomIn]).
Proof.
  split; [reflexivity |].
  apply (proj1 (zoom_in_and_out_cancel [ClickImage "site.jpg"; ZoomIn])).
  reflexivity.
Defined.

(** X19.  A zoom button is disabled exactly when its handler would change
    nothing: in any state the viewer can reach, zoom-in is disabled if and
    only if [handleZoomIn] leaves the zoom factor as it is, and likewise
    for zoom-out. *)
Theorem zoom_button_disabled_iff_no_effect :
  forall actions : list ViewerAction,
    (zoomInDisabled (viewerAfter actions) = true <->
       imageZoom (handleZoomIn (viewerAfter actions)) == imageZoom (viewerAfter actions)) /\
    (zoomOutDisabled (viewerAfter actions) = true <->
       imageZoom (handleZoomOut (viewerAfter actions)) == imageZoom (viewerAfter actions)).
Proof.
  intros actions.
  pose proof (grid_in_range _ (after_on_grid actions)) as Hrange.
  unfold zoomInDisabled, zoomOutDisabled. rewrite !Qle_bool_iff. cbn.
  set (zoom := imageZoom (viewerAfter actions)) in *.
  split; split.
  - intros Hmax. rewrite Q.min_r by lra. lra.
  - intros Hsame. destruct (Qlt_le_dec 3 (zoom + (1 # 4))) as [Hover | Hunder].
    + rewrite Q.min_r in Hsame by lra. lra.
    + rewrite Q.min_l in Hsame by lra. lra.
  - intros Hmin. rewrite Q.max_r by lra. lra.
  - intros Hsame. destruct (Qlt_le_dec (zoom - (1 # 4)) (1 # 2)) as [Hunder | Hover].
    + rewrite Q.max_r in Hsame by lra. lra.
    + rewrite Q.max_l in Hsame by lra. lra.
Qed.

End ViewerFacts.

(** ** Image addresses and timestamps on the Activities page *)

Module ActivityFacts.
Import Activities.

Lemma append_cancel_l (p a b : string) :
  (p ++ a)%string = (p ++ b)%string -> a = b.
Proof.
  induction p as [| c p IH]; simpl; intros H; [exact H |].
  injection H as H. now apply IH.
Qed.

Lemma append_empty_r (s : string) : (s ++ "")%string = s.
Proof.
  induction s as [| c s IH]; simpl; [reflexivity | now rewrite IH].
Qed.

(** X20.  An image address is produced exactly for a key that is neither
    null nor empty; it is the bucket's address followed by the key, so
    two different keys never share an address. *)
Theorem image_urls_identify_keys :
  (forall imageKey : Nullable string,
     getImageUrl imageKey = None <-> imageKey = None \/ imageKey = Some "") /\
  (forall key url : string,
     getImageUrl (Some key) = Some url -> url = (imageBase ++ key)%string) /\
  (forall key1 key2 : string,
     key1 <> key2 -> getImageUrl (Some key1) <> getImageUrl (Some key2)).
Proof.
  split; [| split].
  - intros [[| c key] |]; cbn; split; intros H; try discriminate; auto.
    + destruct H; discriminate.
  - intros [| c key] url; cbn; intros H; [discriminate |]. now injection H as <-.
  - intros key1 key2 Hdiff. unfold getImageUrl. generalize imageBase. intros base.
    destruct key1 as [| c1 k1], key2 as [| c2 k2]; cbn [truthy];
      try discriminate; [congruence |].
    intros H. injection H as H. apply append_cancel_l in H. contradiction.
Qed.

(** X21.  A trailing ['Z'] makes no difference: a timestamp that
    contains no ['Z'] is formatted exactly as the same timestamp with
    ['Z'] appended. *)
Theorem formatDateTime_ignores_missing_Z :
  forall (Date_parse : string -> TimeValue)
         (toLocaleString : TimeValue -> string -> DateTimeFormatOptions -> string)
         (dateString : string),
    ~ occurs_in "Z" dateString ->
    formatDateTime Date_parse toLocaleString (dateString ++ "Z")
    = formatDateTime Date_parse toLocaleString dateString.
Proof.
  intros Date_parse toLocaleString dateString Hnone. unfold formatDateTime.
  apply includes_false in Hnone. rewrite Hnone.
  assert (Hz : includes (dateString ++ "Z") "Z" = true).
  { apply includes_spec. exists dateString, "". reflexivity. }
  rewrite Hz, append_empty_r. reflexivity.
Qed.

Lemma formatDateTime_ignores_missing_Z_witness :
  ~ occurs_in "Z" "2024-05-02T10:00:00" /\
  formatDateTime (fun _ => Some 0%Z) (fun _ locale _ => locale) "2024-05-02T10:00:00Z"
  = formatDateTime (fun _ => Some 0%Z) (fun _ locale _ => locale) "2024-05-02T10:00:00".
Proof.
  assert (Hnone : ~ occurs_in "Z" "2024-05-02T10:00:00")
    by (apply includes_false; reflexivity).
  split; [exact Hnone |].
  apply (formatDateTime_ignores_missing_Z (fun _ => Some 0%Z) (fun _ locale _ => locale)
           "2024-05-02T10:00:00" Hnone).
Defined.

End ActivityFacts.

(** ** The search filters of the other pages, and the search term *)

Module FilterFacts.

Lemma append_assoc (a b c : string) :
  ((a ++ b) ++ c)%string = (a ++ (b ++ c))%string.
Proof.
  induction a as [| x a IH]; simpl; [reflexivity | now rewrite IH].
Qed.

Lemma occurs_in_trans (a b c : string) :
  occurs_in a b -> occurs_in b c -> occurs_in a c.
Proof.
  intros [p1 [q1 ->]] [p2 [q2 ->]].
  exists (p2 ++ p1)%string, (q1 ++ q2)%string.
  now rewrite !append_assoc.
Qed.

Lemma includes_empty (s : string) : includes s "" = true.
Proof.
  destruct s; reflexivity.
Qed.

Lemma filter_all {A : Type} (f : A -> bool) (l : list A) :
  (forall x, In x l -> f x = true) -> filter f l = l.
Proof.
  induction l as [| x l IH]; intros Hall; simpl; [reflexivity |].
  rewrite (Hall x) by now left. f_equal. apply IH. intros y Hy. apply Hall. now right.
Qed.

Section Term.
Variable toLowerCase : string -> string.

Lemma field_matches_narrower (field : Nullable string) (wide narrow : string) :
  occurs_in (toLowerCase wide) (toLowerCase narrow) ->
  Inventory.field_matches toLowerCase field narrow = true ->
  Inventory.field_matches toLowerCase field wide = true.
Proof.
  intros Hterm Hnarrow.
  apply field_matches_spec in Hnarrow. destruct Hnarrow as [text [Hfield Hin]].
  apply field_matches_spec. exists text. split; [exact Hfield |].
  unfold Inventory.contains_ci in *. eapply occurs_in_trans; eassumption.
Qed.

End Term.

(** X22.  The activity filter: an activity is listed exactly when it is
    one of the rows and the term is contained, case-insensitively, in its
    type, in its description or in the name of its joined user.  An
    activity with no type, no description and no named user is therefore
    listed for no search term, not even the empty one. *)
Theorem activity_filter_sound_and_complete :
  forall (number : Type) (toLowerCase : string -> string) (searchTerm : string)
         (activities : list (Activities.Activity.t number))
         (activity : Activities.Activity.t number),
    (In activity (Activities.filteredActivities toLowerCase (Some activities) searchTerm) <->
       In activity activities /\
       exists text,
         (Activities.Activity.activity_type activity = Some text \/
          Activities.Activity.description activity = Some text \/
          exists u, Activities.Activity.users activity = Some u /\
                    Activities.User.name u = Some text) /\
         Inventory.contains_ci toLowerCase text searchTerm) /\
    (Activities.Activity.activity_type activity = None ->
     Activities.Activity.description activity = None ->
     (forall u, Activities.Activity.users activity = Some u ->
                Activities.User.name u = None) ->
     ~ In activity (Activities.filteredActivities toLowerCase (Some activities) searchTerm)).
Proof.
  intros number toLowerCase searchTerm activities activity.
  assert (Hiff :
    In activity (Activities.filteredActivities toLowerCase (Some activities) searchTerm) <->
    In activity activities /\
    exists text,
      (Activities.Activity.activity_type activity = Some text \/
       Activities.Activity.description activity = Some text \/
       exists u, Activities.Activity.users activity = Some u /\
                 Activities.User.name u = Some text) /\
      Inventory.contains_ci toLowerCase text searchTerm).
  { unfold Activities.filteredActivities. rewrite filter_In, !orb_true_iff.
    rewrite !field_matches_spec. unfold Activities.through.
    split.
    - intros [Hin [[[text [Hf Hc]] | [text [Hf Hc]]] | [text [Hf Hc]]]];
        (split; [exact Hin |]); exists text; (split; [| exact Hc]); auto.
      destruct (Activities.Activity.users activity) as [u |]; [| discriminate].
      right. right. now exists u.
    - intros [Hin [text [[Hf | [Hf | [u [Hu Hf]]]] Hc]]]; (split; [exact Hin |]).
      + left. left. now exists text.
      + left. right. now exists text.
      + right. exists text. rewrite Hu. auto. }
  split; [exact Hiff |].
  intros Htype Hdescription Huser Hin. apply Hiff in Hin.
  destruct Hin as [_ [text [[Hf | [Hf | [u [Hu Hf]]]] _]]]; try congruence.
  rewrite (Huser u Hu) in Hf. discriminate.
Qed.

(** X23.  The booking filter: a booking is listed exactly when it is one
    of the rows and either the customer's name contains the term
    case-insensitively, or the customer's phone contains the term as it is
    written; the phone is matched without any lower-casing. *)
Theorem booking_filter_sound_and_complete :
  forall (number : Type) (toLowerCase : string -> string) (searchTerm : string)
         (bookings : list (Bookings.Booking.t number)) (booking : Bookings.Booking.t number),
    In booking (Bookings.filteredBookings toLowerCase (Some bookings) searchTerm) <->
    In booking bookings /\
    ((exists name, Bookings.Booking.customer_name booking = Some name /\
                   Inventory.contains_ci toLowerCase name searchTerm) \/
     (exists phone, Bookings.Booking.customer_phone booking = Some phone /\
                    occurs_in searchTerm phone)).
Proof.
  intros number toLowerCase searchTerm bookings booking.
  unfold Bookings.filteredBookings. rewrite filter_In, orb_true_iff, field_matches_spec.
  unfold Bookings.phone_matches.
  destruct (Bookings.Booking.customer_phone booking) as [phone |].
  - rewrite includes_spec. split.
    + intros [Hin [H | H]]; (split; [exact Hin |]); [now left | right; now exists phone].
    + intros [Hin [H | [phone' [Heq H]]]]; (split; [exact Hin |]); [now left |].
      right. now injection Heq as ->.
  - split.
    + intros [Hin [H | H]]; [| discriminate]. split; [exact Hin | now left].
    + intros [Hin [H | [phone [Heq _]]]]; [| discriminate]. split; [exact Hin | now left].
Qed.

(** X24.  With the search field empty every inventory item and every
    site is listed, in the order of the query, provided lower-casing the
    empty string gives the empty string. *)
Theorem empty_search_lists_everything :
  forall (toLowerCase : string -> string)
         (inventoryItems : list Inventory.Item.t) (sites : list Sites.Site.t),
    toLowerCase "" = "" ->
    Inventory.filteredItems toLowerCase (Some inventoryItems) "" = inventoryItems /\
    Sites.filteredSites toLowerCase (Some sites) "" = sites.
Proof.
  intros toLowerCase inventoryItems sites Hempty.
  unfold Inventory.filteredItems, Sites.filteredSites.
  split; apply filter_all; intros x _; unfold Inventory.field_matches at 1;
    now rewrite Hempty, includes_empty.
Qed.

Lemma empty_search_lists_everything_witness :
  charwise lowerAscii "" = "" /\
  Inventory.filteredItems (charwise lowerAscii) (Some Sample.inventory) "" = Sample.inventory /\
  Sites.filteredSites (charwise lowerAscii) (Some []) "" = [].
Proof.
  split; [reflexivity |].
  apply (empty_search_lists_everything (charwise lowerAscii) Sample.inventory []).
  reflexivity.
Defined.

(** X25.  Refining the search term never adds rows: when the lower-cased
    term [wide] occurs in the lower-cased term [narrow], every item and
    every site listed for [narrow] is also listed for [wide]. *)
Theorem narrower_term_lists_fewer_rows :
  forall (toLowerCase : string -> string) (wide narrow : string)
         (inventoryItems : list Inventory.Item.t) (sites : list Sites.Site.t),
    occurs_in (toLowerCase wide) (toLowerCase narrow) ->
    (forall item,
       In item (Inventory.filteredItems toLowerCase (Some inventoryItems) narrow) ->
       In item (Inventory.filteredItems toLowerCase (Some inventoryItems) wide)) /\
    (forall site,
       In site (Sites.filteredSites toLowerCase (Some sites) narrow) ->
       In site (Sites.filteredSites toLowerCase (Some sites) wide)).
Proof.
  intros toLowerCase wide narrow inventoryItems sites Hterm.
  unfold Inventory.filteredItems, Sites.filteredSites.
  split; intros x; rewrite !filter_In, !orb_true_iff;
    intros [Hin [H | H]]; (split; [exact Hin |]);
    [left | right | left | right];
    eapply field_matches_narrower; eassumption.
Qed.

Lemma narrower_term_lists_fewer_rows_witness :
  occurs_in (charwise lowerAscii "ce") (charwise lowerAscii "Cem") /\
  (forall item,
     In item (Inventory.filteredItems (charwise lowerAscii) (Some Sample.inventory) "Cem") ->
     In item (Inventory.filteredItems (charwise lowerAscii) (Some Sample.inventory) "ce")).
Proof.
  assert (Hterm : occurs_in (charwise lowerAscii "ce") (charwise lowerAscii "Cem"))
    by (exists "", "m"; reflexivity).
  split; [exact Hterm |].
  apply (proj1 (narrower_term_lists_fewer_rows (charwise lowerAscii) "ce" "Cem"
                  Sample.inventory [] Hterm)).
Defined.

End FilterFacts.

(** ** The assignments joined with their users and sites *)

Module AssignmentFacts.
Import Assignments.

Lemma find_in_spec {A : Type} (source : Optional (list A)) (key : A -> string) (wanted : string) :
  match find_in source (fun x => String.eqb (key x) wanted) with
  | Some x => key x = wanted /\ exists elements, source = Some elements /\ In x elements
  | None => forall elements, source = Some elements ->
                             forall x, In x elements -> key x <> wanted
  end.
Proof.
  destruct source as [elements |]; cbn.
  - destruct (find _ elements) as [x |] eqn:Hfind.
    + apply find_some in Hfind. destruct Hfind as [Hin Heq].
      apply String.eqb_eq in Heq. split; [exact Heq |]. now exists elements.
    + intros elements' Heq x Hin. injection Heq as <-.
      apply (find_none _ _ Hfind) in Hin. now apply String.eqb_neq.
  - intros elements H. discriminate.
Qed.

(** X26.  The join made in the page keeps the assignments as they are,
    one enriched row per assignment and in the same order, and is empty
    while the assignments are not loaded.  The user attached to a row is a
    user of the loaded list whose id is the row's [user_id]; no user is
    attached only when the users are not loaded or none of them has that
    id.  The same holds for the site and [site_id]. *)
Theorem enrichment_joins_by_id :
  forall (users : Optional (list User.t)) (sites : Optional (list Site.t)),
    enrichedAssignments None users sites = [] /\
    forall assignments : list Assignment.t,
      map Enriched.assignment (enrichedAssignments (Some assignments) users sites)
      = assignments /\
      forall e, In e (enrichedAssignments (Some assignments) users sites) ->
        match Enriched.users e with
        | Some u =>
            User.id u = Assignment.user_id (Enriched.assignment e) /\
            exists loaded, users = Some loaded /\ In u loaded
        | None =>
            forall loaded, users = Some loaded ->
              forall u, In u loaded ->
                User.id u <> Assignment.user_id (Enriched.assignment e)
        end /\
        match Enriched.sites e with
        | Some s =>
            Site.id s = Assignment.site_id (Enriched.assignment e) /\
            exists loaded, sites = Some loaded /\ In s loaded
        | None =>
            forall loaded, sites = Some loaded ->
              forall s, In s loaded ->
                Site.id s <> Assignment.site_id (Enriched.assignment e)
        end.
Proof.
  intros users sites. split; [reflexivity |].
  intros assignments. unfold enrichedAssignments. split.
  - rewrite map_map. cbn. apply map_id.
  - intros e Hin. apply in_map_iff in Hin. destruct Hin as [a [<- _]]. cbn.
    split.
    + apply (find_in_spec users User.id (Assignment.user_id a)).
    + apply (find_in_spec sites Site.id (Assignment.site_id a)).
Qed.

(** X27.  While the users and the sites are still loading, the search
    finds assignments by their role only: an enriched assignment is listed
    exactly when its role is not null and contains the term
    case-insensitively. *)
Theorem search_by_role_while_loading :
  forall (toLowerCase : string -> string) (searchTerm : string)
         (assignments : list Assignment.t) (e : Enriched.t),
    In e (filteredAssignments toLowerCase
            (enrichedAssignments (Some assignments) None None) searchTerm) <->
    In e (enrichedAssignments (Some assignments) None None) /\
    exists text,
      Assignment.role (Enriched.assignment e) = Some text /\
      Inventory.contains_ci toLowerCase text searchTerm.
Proof.
  intros toLowerCase searchTerm assignments e.
  unfold filteredAssignments. rewrite filter_In. split.
  - intros [Hin Hmatch]. split; [exact Hin |].
    apply in_map_iff in Hin. destruct Hin as [a [<- _]].
    cbn in Hmatch. now apply field_matches_spec in Hmatch.
  - intros [Hin Hrole]. split; [exact Hin |].
    apply in_map_iff in Hin. destruct Hin as [a [<- _]].
    cbn. now apply field_matches_spec.
Qed.

End AssignmentFacts.
